(** * Storage-policy keywords and the session-token test of neofs-testcases

    A shallow embedding of
    - [robot/resources/lib/python_keywords/storage_policy.py]
      (the copy-verification scans), and
    - [pytest_tests/testsuites/session_token/test_object_session_token.py]
      (the placement-policy text and the session-token scenario),
    followed by the properties of the specification that concern them.

    The Python code talks to a storage network through keywords that live in
    other modules ([neofs_verbs], [grpc_responses], [common],
    [complex_object_actions]).  Those are the interface [Collaborators]
    below; the code of the two files is translated over it. *)

From Stdlib Require Import Ascii String.
From stdpp Require Import base decidable option list strings gmap pretty.

Local Open Scope string_scope.
Local Open Scope list_scope.

(** ** Python values and exceptions *)

(** The classes of the exceptions that occur.  [ExceptionC],
    [AssertionErrorC] and [IndexErrorC] derive from Python's [Exception];
    [FailedC], the outcome by which pytest fails a test, derives from
    [BaseException] only, as [KeyboardInterrupt] does. *)
Inductive ExcClass : Type :=
  | ExceptionC
  | AssertionErrorC
  | IndexErrorC
  | FailedC.

(** [issubclass(c, Exception)] *)
Definition is_exception (c : ExcClass) : bool :=
  match c with
  | ExceptionC | AssertionErrorC | IndexErrorC => true
  | FailedC => false
  end.

(** An exception: class, message ([str(err)]) and the cause attached by
    [raise ... from err]. *)
Inductive PyExc : Type :=
  | MkExc (cls : ExcClass) (msg : string)
  | MkExcFrom (cls : ExcClass) (msg : string) (cause : PyExc).

Definition exc_class (e : PyExc) : ExcClass :=
  match e with MkExc c _ | MkExcFrom c _ _ => c end.

Definition exc_msg (e : PyExc) : string :=
  match e with MkExc _ m | MkExcFrom _ m _ => m end.

Definition exc_cause (e : PyExc) : option PyExc :=
  match e with MkExc _ _ => None | MkExcFrom _ _ c => Some c end.

(** [isinstance(e, Exception)]: an [except Exception] clause catches [e]. *)
Definition caught (e : PyExc) : bool := is_exception (exc_class e).

(** What a HEAD keyword hands back: [None], or the decoded header, a dict. *)
Inductive PyValue : Type :=
  | PyNone
  | PyDict (items : gmap string string).

(** Python truthiness, as [if response:] evaluates it: [None] and the empty
    dict are false. *)
Definition truthy (v : PyValue) : bool :=
  match v with
  | PyNone => false
  | PyDict items => bool_decide (items ≠ ∅)
  end.

(** [res is None] *)
Definition is_none (v : PyValue) : bool :=
  match v with
  | PyNone => true
  | PyDict _ => false
  end.

(** Truthiness of an [Optional[str]], as [assert last_oid] evaluates it. *)
Definition truthy_str (o : option string) : bool :=
  match o with
  | None => false
  | Some s => negb (String.eqb s EmptyString)
  end.

(** ** The world, and computations that may raise *)

(** The executor of CLI commands; the scans only pass it on. *)
Inductive Shell : Type :=
  | CliShell.

(** One HEAD request, with the arguments the keywords give it. *)
Record HeadCall : Type := MkHeadCall {
  hc_wallet : string;
  hc_cid : string;
  hc_oid : string;
  hc_shell : Shell;
  hc_endpoint : string;
  hc_is_direct : bool
}.

(** What a run leaves behind: the HEAD requests issued, in order, and the
    lines given to [logger.info]. *)
Record World : Type := MkWorld {
  probes : list HeadCall;
  log : list string
}.

Definition empty_world : World := MkWorld [] [].

Inductive Result (A : Type) : Type :=
  | Ok (a : A)
  | Raise (e : PyExc).

Arguments Ok {A} a.
Arguments Raise {A} e.

(** A computation over a state [W]: it returns or raises, and leaves a
    state behind either way. *)
Definition M (W A : Type) : Type := W → Result A * W.

Definition ret {W A} (a : A) : M W A := λ w, (Ok a, w).

Definition bind {W A B} (m : M W A) (k : A → M W B) : M W B :=
  λ w, match m w with
       | (Ok a, w') => k a w'
       | (Raise e, w') => (Raise e, w')
       end.

Definition raise {W A} (e : PyExc) : M W A := λ w, (Raise e, w).

(** [try: m except Exception as err: handler err]: the handler runs on an
    exception that is an [Exception]; any other one goes on. *)
Definition try_except {W A} (m : M W A) (handler : PyExc → M W A) : M W A :=
  λ w, match m w with
       | (Ok a, w') => (Ok a, w')
       | (Raise e, w') => if caught e then handler e w' else (Raise e, w')
       end.

Notation "'do' x <- m ; k" := (bind m (λ x, k))
  (at level 10, x name, m at level 100, k at level 200, only parsing).
Notation "'run' m ; k" := (bind m (λ _, k))
  (at level 10, m at level 100, k at level 200, only parsing).

(** [for x in l: acc = body x acc], the loop variable [acc] standing for
    the local the loop updates. *)
Fixpoint for_each {W A S} (l : list A) (body : A → S → M W S) (acc : S)
    : M W S :=
  match l with
  | [] => ret acc
  | x :: l' => do acc' <- body x acc; for_each l' body acc'
  end.

Definition logger_info (line : string) : M World unit :=
  λ w, (Ok tt, MkWorld (probes w) (log w ++ [line])).

(** The value a run returns, and the requests it has issued. *)
Definition value_of {W A} (r : Result A * W) : Result A := fst r.
Definition probes_of {A} (r : Result A * World) : list HeadCall :=
  probes (snd r).

(** ** The keywords of other modules *)

Class Collaborators : Type := {
  (** [common.NEOFS_NETMAP]: the endpoints of the storage nodes. *)
  NEOFS_NETMAP : list string;
  (** What the network answers to a HEAD request: a header, [None], or an
      exception of the CLI.  The answer is a function of the request: the
      scans that are compared run against one state of the network. *)
  head_object_outcome : HeadCall → Result PyValue;
  (** [grpc_responses.error_matches_status] and its pattern. *)
  error_matches_status : PyExc → string → bool;
  OBJECT_NOT_FOUND : string;
  (** [complex_object_actions.get_last_object] *)
  get_last_object : string → string → string → Shell → M World (option string)
}.

(** ** storage_policy.py *)

Section Keywords.

Context `{net : Collaborators}.

(** [neofs_verbs.head_object(wallet, cid, oid, shell=, endpoint=, is_direct=)]:
    the request goes out, the network answers. *)
Definition head_object (wallet cid oid : string) (shell : Shell)
    (endpoint : string) (is_direct : bool) : M World PyValue :=
  λ w, let call := MkHeadCall wallet cid oid shell endpoint is_direct in
       (head_object_outcome call, MkWorld (probes w ++ [call]) (log w)).

(** The body of the loop of [get_simple_object_copies]. *)
Definition simple_iteration (wallet cid oid : string) (shell : Shell)
    (node : string) (copies : nat) : M World nat :=
  try_except
    (do response <- head_object wallet cid oid shell node true;
     if truthy response then
       run logger_info ("Found object " +:+ oid +:+ " on node " +:+ node);
       ret (copies + 1)
     else ret copies)
    (λ _,
     run logger_info ("No " +:+ oid +:+ " object copy found on " +:+ node
                      +:+ ", continue");
     ret copies).

Definition get_simple_object_copies (wallet cid oid : string) (shell : Shell)
    : M World nat :=
  for_each NEOFS_NETMAP (simple_iteration wallet cid oid shell) 0.

Definition get_complex_object_copies (wallet cid oid : string) (shell : Shell)
    : M World nat :=
  do last_oid <- get_last_object wallet cid oid shell;
  if truthy_str last_oid then
    get_simple_object_copies wallet cid (default EmptyString last_oid) shell
  else
    raise (MkExc AssertionErrorC
             ("No Last Object for " +:+ cid +:+ "/" +:+ oid
              +:+ " found among all Storage Nodes")).

Definition get_object_copies (complexity wallet cid oid : string)
    (shell : Shell) : M World nat :=
  if String.eqb complexity "Simple"
  then get_simple_object_copies wallet cid oid shell
  else get_complex_object_copies wallet cid oid shell.

(** [skip_nodes: Optional[list[str]] = None]; [if skip_nodes:] is false for
    [None] and for the empty list. *)
Definition nodes_to_search (skip_nodes : option (list string)) : list string :=
  match skip_nodes with
  | None | Some [] => NEOFS_NETMAP
  | Some skip => filter (λ node, node ∉ skip) NEOFS_NETMAP
  end.

(** The body of the loop of [get_nodes_with_object]. *)
Definition with_iteration (wallet cid oid : string) (shell : Shell)
    (node : string) (nodes_list : list string) : M World (list string) :=
  try_except
    (do res <- head_object wallet cid oid shell node true;
     if negb (is_none res) then
       run logger_info ("Found object " +:+ oid +:+ " on node " +:+ node);
       ret (nodes_list ++ [node])
     else ret nodes_list)
    (λ _,
     run logger_info ("No " +:+ oid +:+ " object copy found on " +:+ node
                      +:+ ", continue");
     ret nodes_list).

Definition get_nodes_with_object (wallet cid oid : string) (shell : Shell)
    (skip_nodes : option (list string)) : M World (list string) :=
  for_each (nodes_to_search skip_nodes) (with_iteration wallet cid oid shell) [].

(** The exception [get_nodes_without_object] raises from [err]. *)
Definition head_failure (err : PyExc) : PyExc :=
  MkExcFrom ExceptionC
    ("Got error " +:+ exc_msg err +:+ " on head object command") err.

(** The body of the loop of [get_nodes_without_object]. *)
Definition without_iteration (wallet cid oid : string) (shell : Shell)
    (node : string) (nodes_list : list string) : M World (list string) :=
  try_except
    (do res <- head_object wallet cid oid shell node true;
     if is_none res then ret (nodes_list ++ [node]) else ret nodes_list)
    (λ err,
     if error_matches_status err OBJECT_NOT_FOUND then
       ret (nodes_list ++ [node])
     else raise (head_failure err)).

Definition get_nodes_without_object (wallet cid oid : string) (shell : Shell)
    : M World (list string) :=
  for_each NEOFS_NETMAP (without_iteration wallet cid oid shell) [].

End Keywords.

(** ** test_object_session_token.py: the placement policy *)

(** A [str] is a sequence of code points; a [string] holds those below 256.
    [str.isspace] on that range: the separators that [str.split()] skips. *)
Definition isspace (c : ascii) : bool :=
  let n := nat_of_ascii c in
  ((9 <=? n)%nat && (n <=? 13)%nat) || ((28 <=? n)%nat && (n <=? 32)%nat)
  || (n =? 133)%nat || (n =? 160)%nat.

(** [str.split()] with no argument, as CPython scans: [word] is the token
    being read, empty between tokens. *)
Fixpoint split_from (word : string) (s : string) : list string :=
  match s with
  | EmptyString => if String.eqb word EmptyString then [] else [word]
  | String c rest =>
      if isspace c then
        if String.eqb word EmptyString then split_from EmptyString rest
        else word :: split_from EmptyString rest
      else split_from (word +:+ String c EmptyString) rest
  end.

Definition split (s : string) : list string := split_from EmptyString s.

(** [locode = "SPB" if un_locode == "RU LED" else un_locode.split()[1]] *)
Definition locode (un_locode : string) : Result string :=
  if String.eqb un_locode "RU LED" then Ok "SPB"
  else match split un_locode !! 1 with
       | Some token => Ok token
       | None => Raise (MkExc IndexErrorC "list index out of range")
       end.

(** The double quote, a character of the policy text. *)
Definition dquote : string := String (ascii_of_nat 34) EmptyString.

(** The three adjacent f-strings of [placement_policy]. *)
Definition placement_policy (locode un_locode : string) : string :=
  ("REP 1 IN LOC_" +:+ locode +:+ "_PLACE CBF 1 SELECT 1 FROM LOC_"
   +:+ locode +:+ " ")
  +:+ ("AS LOC_" +:+ locode +:+ "_PLACE FILTER " +:+ dquote +:+ "UN-LOCODE"
       +:+ dquote +:+ " ")
  +:+ ("EQ " +:+ dquote +:+ un_locode +:+ dquote +:+ " AS LOC_" +:+ locode).

(** The step Create Private Container, up to the call of
    [create_container]: the rule it is given. *)
Definition container_rule (un_locode : string) : Result string :=
  match locode un_locode with
  | Ok group => Ok (placement_policy group un_locode)
  | Raise err => Raise err
  end.

(** The grammar of the placement-policy text, as the specification gives it:
    REP n IN group CBF m SELECT k FROM group AS group
    FILTER attr EQ value AS group, attribute and value in double quotes. *)
Record PolicyText : Type := MkPolicyText {
  rep : nat;
  rep_in : string;
  cbf : nat;
  select : nat;
  select_from : string;
  select_as : string;
  filter_attr : string;
  filter_value : string;
  filter_as : string
}.

Definition policy_text (p : PolicyText) : string :=
  "REP " +:+ pretty (rep p) +:+ " IN " +:+ rep_in p
  +:+ " CBF " +:+ pretty (cbf p)
  +:+ " SELECT " +:+ pretty (select p) +:+ " FROM " +:+ select_from p
  +:+ " AS " +:+ select_as p
  +:+ " FILTER " +:+ dquote +:+ filter_attr p +:+ dquote
  +:+ " EQ " +:+ dquote +:+ filter_value p +:+ dquote
  +:+ " AS " +:+ filter_as p.

(** Every character of [s] passes the test [p]. *)
Fixpoint all_chars (p : ascii → bool) (s : string) : bool :=
  match s with
  | EmptyString => true
  | String c rest => p c && all_chars p rest
  end.

(** A run of separators, and a token: not empty, no separator in it. *)
Definition blank (s : string) : bool := all_chars isspace s.

Definition token (s : string) : bool :=
  negb (String.eqb s EmptyString) && all_chars (λ c, negb (isspace c)) s.

(** [s] is at its end, or goes on with a separator. *)
Definition token_ends (s : string) : bool :=
  match s with
  | EmptyString => true
  | String c _ => isspace c
  end.

(** [s] without its first character. *)
Definition after_first (s : string) : string :=
  match s with
  | EmptyString => EmptyString
  | String _ rest => rest
  end.

(** ** test_object_session_token.py: the operations with a session token *)

(** The keywords the steps call, over a network [Net] and its session
    tokens [Token]. *)
Class SessionKeywords (Net Token : Type) : Type := {
  (** [grpc_responses.SESSION_NOT_FOUND] *)
  SESSION_NOT_FOUND : string;
  (** [re.search(pattern, text) is not None], the test of
      [pytest.raises(..., match=pattern)] *)
  re_search : string → string → bool;
  (** The text of the AssertionError by which [pytest.raises] reports, for
      a pattern and a text, that the text does not match; it is pytest's,
      and varies with its version. *)
  mismatch_text : string → string → string;
  (** [put_object(wallet=, path=, cid=, shell=, endpoint=, session=)] *)
  put_object : string → string → string → Shell → string → option Token
               → M Net string;
  (** [delete_object(wallet=, cid=, oid=, shell=, endpoint=, session=)] *)
  delete_object : string → string → string → Shell → string → option Token
                  → M Net string
}.

Section SessionTokenTest.

Context {Net Token : Type} `{keywords : SessionKeywords Net Token}.

(** [with pytest.raises(Exception, match=pattern): block]: a block that
    returns fails the test; an exception that is no [Exception] goes on; an
    [Exception] is tested against the pattern. *)
Definition pytest_raises {A} (pattern : string) (block : M Net A)
    : M Net unit :=
  λ net, match block net with
         | (Ok _, net') =>
             (Raise (MkExc FailedC "DID NOT RAISE <class 'Exception'>"), net')
         | (Raise err, net') =>
             if caught err then
               if re_search pattern (exc_msg err) then (Ok tt, net')
               else (Raise (MkExc AssertionErrorC
                              (mismatch_text pattern (exc_msg err))), net')
             else (Raise err, net')
         end.

(** The last three steps of [test_object_session_token], the locals of
    the test being given. *)
Definition session_token_steps (wallet file_path cid oid oid_delete : string)
    (client_shell : Shell) (session_token : Token)
    (session_token_node container_node noncontainer_node : string)
    : M Net unit :=
  (* Node not in container but granted a session token *)
  run put_object wallet file_path cid client_shell
        session_token_node (Some session_token);
  run delete_object wallet cid oid_delete client_shell
        session_token_node (Some session_token);
  (* Node in container and not granted a session token *)
  run pytest_raises SESSION_NOT_FOUND
        (put_object wallet file_path cid client_shell
           container_node (Some session_token));
  run pytest_raises SESSION_NOT_FOUND
        (delete_object wallet cid oid client_shell
           container_node (Some session_token));
  (* Node not in container and not granted a session token *)
  run pytest_raises SESSION_NOT_FOUND
        (put_object wallet file_path cid client_shell
           noncontainer_node (Some session_token));
  run pytest_raises SESSION_NOT_FOUND
        (delete_object wallet cid oid client_shell
           noncontainer_node (Some session_token));
  ret tt.

End SessionTokenTest.

(** ** The session authorization guard of the storage nodes

    The nodes that answer the test are not part of the repository; the
    guard they run is taken from the specification. *)

Module Session.

(** Modelled from the spec: the operations on objects that the guard of the
    storage nodes, which is no code of the repository, decides on. *)
Inductive Operation : Type := PUT | DELETE | HEAD.

Global Instance Operation_eq_dec : EqDecision Operation.
Proof. solve_decision. Defined.

(** Modelled from the spec: the denial reasons of the guard, which is no
    code of the repository. *)
Inductive DenyReason : Type := Expired | WrongOperation | SessionNotFound.

(** Modelled from the spec: what Authorize, which is no code of the
    repository, answers. *)
Inductive Decision : Type :=
  | Allow
  | Deny (reason : DenyReason).

(** Modelled from the spec: the address of an object, container id and
    object id, as Authorize, which is no code of the repository, takes it. *)
Record ObjectAddress : Type := MkObjectAddress {
  container_id : string;
  object_id : string
}.

(** Modelled from the spec: the session token of the storage network, which
    is no code of the repository: an identifier, the issuer, the validity
    window and the set of the operations it authorizes. *)
Record SessionToken : Type := MkSessionToken {
  token_id : nat;
  issuer : string;
  valid_from : nat;
  valid_until : nat;
  authorized : list Operation
}.

(** Modelled from the spec: the state of the storage network the guard
    reads, which is no code of the repository: the token table of each
    node, keyed by token identifier, the number of tokens issued, the
    placement set of each container, and the time. *)
Record Network : Type := MkNetwork {
  token_tables : gmap string (gset nat);
  issued : nat;
  placement : gmap string (gset string);
  now : nat
}.

(** The tokens [node] has a record of. *)
Definition known_tokens (net : Network) (node : string) : gset nat :=
  default ∅ (token_tables net !! node).

(** Modelled from the spec: the contract Authorize of the session
    authorization guard, which is no code of the repository, with its rules
    in their order: Expired outside the validity window, WrongOperation for
    an operation that is not authorized, SessionNotFound on a node without
    a record of the token, and Allow otherwise. *)
Definition Authorize (net : Network) (token : SessionToken) (node : string)
    (op : Operation) (object : ObjectAddress) (time : nat) : Decision :=
  if bool_decide (time < valid_from token ∨ valid_until token < time)%nat
  then Deny Expired
  else if bool_decide (op ∉ authorized token) then Deny WrongOperation
  else if bool_decide (token_id token ∉ known_tokens net node)
  then Deny SessionNotFound
  else Allow.

(** Modelled from the spec: the contract CreateSessionToken, which is no
    code of the repository: a new token is issued, and the node it is
    created against, and no other, has a record of it. *)
Definition CreateSessionToken (net : Network) (owner target : string)
    (from until : nat) (ops : list Operation) : SessionToken * Network :=
  let token := MkSessionToken (issued net) owner from until ops in
  (token,
   MkNetwork
     (<[target := {[issued net]} ∪ known_tokens net target]> (token_tables net))
     (S (issued net)) (placement net) (now net)).

(** Modelled from the spec: the states of the storage network, which is no
    code of the repository, that come to be: no token at first, then tokens
    are created, time passes, containers are placed.  Nothing else writes a
    token table: the specification leaves the distribution of tokens out. *)
Inductive reachable : Network → Prop :=
  | reachable_start places time :
      reachable (MkNetwork ∅ 0 places time)
  | reachable_create net owner target from until ops :
      reachable net →
      reachable (CreateSessionToken net owner target from until ops).2
  | reachable_tick net places time :
      reachable net →
      reachable (MkNetwork (token_tables net) (issued net) places time).

(** The token is presented inside its validity window. *)
Definition in_window (token : SessionToken) (time : nat) : Prop :=
  (valid_from token ≤ time ≤ valid_until token)%nat.

(** Modelled from the spec: the text by which a node, which is no code of
    the repository, surfaces a denial: the reason, verbatim. *)
Definition denial_text (reason : DenyReason) : string :=
  match reason with
  | Expired => "Expired"
  | WrongOperation => "WrongOperation"
  | SessionNotFound => "SessionNotFound"
  end.

(** Modelled from the spec: the contracts PutObject and DeleteObject, which
    are no code of the repository, as far as the guard decides them: a
    request with a session token is answered as Authorize says, the denial
    reason surfaced verbatim. *)
Definition request (op : Operation) (cid oid : string) (endpoint : string)
    (session : option SessionToken) (answer : string) : M Network string :=
  λ net,
    match session with
    | None => (Ok answer, net)
    | Some token =>
        match Authorize net token endpoint op (MkObjectAddress cid oid)
                (now net) with
        | Allow => (Ok answer, net)
        | Deny reason => (Raise (MkExc ExceptionC (denial_text reason)), net)
        end
    end.

End Session.

(** Modelled from the spec: the keywords [put_object] and [delete_object]
    and the pattern SESSION_NOT_FOUND, of modules of the repository that are
    not at hand, answered by nodes that run the guard. *)
Definition guarded_keywords
    : SessionKeywords Session.Network Session.SessionToken := {|
  SESSION_NOT_FOUND := "SessionNotFound";
  re_search := λ pattern text,
    if index 0 pattern text is Some _ then true else false;
  mismatch_text := λ pattern text,
    "Regex pattern did not match. Regex: " +:+ pattern +:+ " Input: " +:+ text;
  put_object := λ wallet path cid shell endpoint session,
    Session.request Session.PUT cid "new object id" endpoint session
      "new object id";
  delete_object := λ wallet cid oid shell endpoint session,
    Session.request Session.DELETE cid oid endpoint session "tombstone id"
|}.

(** Modelled from the spec: how the storage network, which is no code of
    the repository, goes on from a state: further tokens are created, time
    passes, containers are placed.  No step hands a token to another node:
    the specification leaves the distribution of tokens out. *)
Inductive later (net : Session.Network) : Session.Network → Prop :=
  | later_now : later net net
  | later_create net' owner target from until ops :
      later net net' →
      later net (Session.CreateSessionToken net' owner target from until ops).2
  | later_tick net' places time :
      later net net' →
      later net (Session.MkNetwork (Session.token_tables net')
                   (Session.issued net') places time).

(** ** How a scan classifies a node

    The scans of one object ask every node the same question; what a node
    answers decides, on its own, in which result the node appears, and
    whether the scan ends at the node. *)

Section Classification.

Context `{net : Collaborators}.
Variables (wallet cid oid : string) (shell : Shell).

(** The direct HEAD request a scan sends to [node]. *)
Definition probe (node : string) : HeadCall :=
  MkHeadCall wallet cid oid shell node true.

Definition outcome (node : string) : Result PyValue :=
  head_object_outcome (probe node).

(** [node] adds one to the count of [get_simple_object_copies]. *)
Definition counted (node : string) : bool :=
  match outcome node with
  | Ok response => truthy response
  | Raise _ => false
  end.

(** [node] enters the list of [get_nodes_with_object]. *)
Definition found (node : string) : bool :=
  match outcome node with
  | Ok res => negb (is_none res)
  | Raise _ => false
  end.

(** [node] enters the list of [get_nodes_without_object]: it answers
    [None], or with an [Exception] of the not-found status. *)
Definition lacking (node : string) : bool :=
  match outcome node with
  | Ok res => is_none res
  | Raise err => caught err && error_matches_status err OBJECT_NOT_FOUND
  end.

(** The exception with which [get_simple_object_copies] and
    [get_nodes_with_object] end at [node]: what the probe raises, when it is
    no [Exception]. *)
Definition escaping (node : string) : option PyExc :=
  match outcome node with
  | Ok _ => None
  | Raise err => if caught err then None else Some err
  end.

(** The exception with which [get_nodes_without_object] ends at [node]:
    the one it raises from an [Exception] of another status than not-found,
    or what the probe raises, when it is no [Exception]. *)
Definition aborting (node : string) : option PyExc :=
  match outcome node with
  | Ok _ => None
  | Raise err =>
      if caught err then
        if error_matches_status err OBJECT_NOT_FOUND then None
        else Some (head_failure err)
      else Some err
  end.

End Classification.

(** The exception of the first node of [l] at which a scan ends, [stop]
    telling for each node whether it ends there. *)
Definition first_raised (stop : string → option PyExc) (l : list string)
    : option PyExc :=
  head (omap stop l).

(** The nodes of [l] up to the first one at which the scan ends, that one
    included. *)
Fixpoint reached (stop : string → option PyExc) (l : list string)
    : list string :=
  match l with
  | [] => []
  | node :: l' => node :: (if stop node is Some _ then [] else reached stop l')
  end.

(** ** Concrete networks

    Small networks on which the scans are run in the examples below. *)

(** [error_matches_status] for a status pattern free of metacharacters:
    [re.search] is then a substring test on [str(error)]. *)
Definition status_in_message (err : PyExc) (status : string) : bool :=
  if index 0 status (exc_msg err) is Some _ then true else false.

Definition s01 : string := "s01.neofs.devenv:8080".
Definition s02 : string := "s02.neofs.devenv:8080".
Definition s03 : string := "s03.neofs.devenv:8080".
Definition s04 : string := "s04.neofs.devenv:8080".

Definition the_wallet : string := "wallet.json".
Definition the_cid : string := "2WPGpYDUFYxHJmVpPVNRnWqJZbGLwcLzcXXLcvXWGkRR".
Definition the_oid : string := "9iVfUg8aDHKjPC4LhQXEkVUM4HDkR7UCXYLs8NQwYfSG".

Definition object_header : PyValue := PyDict {[ "objectID" := the_oid ]}.

Definition not_found_error : PyExc :=
  MkExc ExceptionC "rpc error: status: code = 2049 message = object not found".

Definition timeout_error : PyExc :=
  MkExc ExceptionC "rpc error: context deadline exceeded".

(** The network of four nodes in which every node answers as [answers]
    says, and a node that is not listed answers not-found. *)
Definition network_of (answers : gmap string (Result PyValue))
    (last_oid : option string) : Collaborators := {|
  NEOFS_NETMAP := [s01; s02; s03; s04];
  head_object_outcome := λ call,
    default (Raise not_found_error) (answers !! hc_endpoint call);
  error_matches_status := status_in_message;
  OBJECT_NOT_FOUND := "object not found";
  get_last_object := λ _ _ _ _, ret last_oid
|}.

(** One copy on [s01]; [s02] answers [None]; the others raise not-found. *)
Definition healthy_network : Collaborators :=
  network_of {[ s01 := Ok object_header; s02 := Ok PyNone ]}
             (Some "6Z7mFkGTc7EKoXcRwm5fTAoCyZ9WHHJCkqLZ3WFVyGCt").

(** As [healthy_network], but the request to [s02] times out. *)
Definition flaky_network : Collaborators :=
  network_of {[ s01 := Ok object_header; s02 := Raise timeout_error ]} None.

(** [s01] answers with an empty header. *)
Definition empty_header_network : Collaborators :=
  network_of {[ s01 := Ok (PyDict ∅) ]} None.

(** As [healthy_network], but the request to [s02] is interrupted: what it
    raises is no [Exception]. *)
Definition interrupted_network : Collaborators :=
  network_of {[ s01 := Ok object_header;
                s02 := Raise (MkExc FailedC "interrupted") ]} None.

(** The network before any token, and a session of one hour created
    against [s01] for PUT and DELETE. *)
Definition first_network : Session.Network := Session.MkNetwork ∅ 0 ∅ 100.

Definition the_session : Session.SessionToken * Session.Network :=
  Session.CreateSessionToken first_network "NbUgTSFvPmsRxmGeWpuuGeJUoRoi6PErcM"
    s01 100 3700 [Session.PUT; Session.DELETE].

(** ** Further notions for the scans *)

(** The network [net] with another map of nodes; every node answers as it
    does in [net]. *)
Definition with_netmap (net : Collaborators) (nodes : list string)
    : Collaborators := {|
  NEOFS_NETMAP := nodes;
  head_object_outcome := @head_object_outcome net;
  error_matches_status := @error_matches_status net;
  OBJECT_NOT_FOUND := @OBJECT_NOT_FOUND net;
  get_last_object := @get_last_object net
|}.

(** An answer that shows no copy to [get_simple_object_copies] and to
    [get_nodes_with_object]: [None], or an [Exception] of any status. *)
Definition quiet (answer : Result PyValue) : Prop :=
  answer = Ok PyNone ∨ ∃ err, answer = Raise err ∧ caught err = true.

(** The lines that the scans of one object give to the logger. *)
Section LogLines.

Context `{net : Collaborators}.
Variables (wallet cid oid : string) (shell : Shell).

Definition found_line (node : string) : string :=
  "Found object " +:+ oid +:+ " on node " +:+ node.

Definition no_copy_line (node : string) : string :=
  "No " +:+ oid +:+ " object copy found on " +:+ node +:+ ", continue".

(** What [get_simple_object_copies] logs for [node]. *)
Definition simple_log_line (node : string) : option string :=
  match outcome wallet cid oid shell node with
  | Ok response => if truthy response then Some (found_line node) else None
  | Raise err => if caught err then Some (no_copy_line node) else None
  end.

(** What [get_nodes_with_object] logs for [node]. *)
Definition with_log_line (node : string) : option string :=
  match outcome wallet cid oid shell node with
  | Ok res => if is_none res then None else Some (found_line node)
  | Raise err => if caught err then Some (no_copy_line node) else None
  end.

End LogLines.

(** * Properties *)

(** ** Where a scan ends *)

Lemma first_raised_None stop l :
  first_raised stop l = None ↔ ∀ node, node ∈ l → stop node = None.
Proof.
  unfold first_raised. induction l as [|n l IH]; simpl.
  - split; [intros _ node Hin; inversion Hin | done].
  - destruct (stop n) as [err|] eqn:E; simpl.
    + split; [done|]. intros Hall.
      assert (Hn : n ∈ n :: l) by (apply elem_of_cons; by left).
      apply Hall in Hn. congruence.
    + rewrite IH. split.
      * intros Hall node Hin. apply elem_of_cons in Hin as [->|Hin]; auto.
      * intros Hall node Hin. apply Hall, elem_of_cons. by right.
Qed.

Lemma reached_all stop l :
  first_raised stop l = None → reached stop l = l.
Proof.
  unfold first_raised. induction l as [|n l IH]; simpl; [done|].
  destruct (stop n); simpl; [done|]. intros Hl. by rewrite IH.
Qed.

Lemma reached_split stop l1 node l2 err :
  (∀ n, n ∈ l1 → stop n = None) →
  stop node = Some err →
  reached stop (l1 ++ node :: l2) = l1 ++ [node]
  ∧ first_raised stop (l1 ++ node :: l2) = Some err.
Proof.
  unfold first_raised.
  induction l1 as [|n l1 IH]; intros Hl1 Hnode; simpl.
  - by rewrite Hnode.
  - assert (Hn : stop n = None) by (apply Hl1, elem_of_cons; by left).
    rewrite Hn. simpl. destruct IH as [E1 E2]; [|done|].
    + intros n' Hin. apply Hl1, elem_of_cons. by right.
    + split; [by rewrite E1 | exact E2].
Qed.

Lemma reached_prefix stop l : reached stop l `prefix_of` l.
Proof.
  induction l as [|n l IH]; simpl; [done|].
  destruct (stop n).
  - by exists l.
  - by apply prefix_cons.
Qed.

Lemma first_raised_cons stop n l :
  first_raised stop (n :: l)
  = match stop n with
    | Some err => Some err
    | None => first_raised stop l
    end.
Proof. unfold first_raised. simpl. by destruct (stop n). Qed.

(** Two ways of ending that agree on the nodes of a list end alike. *)
Lemma stops_agree stop1 stop2 l :
  (∀ node, node ∈ l → stop1 node = stop2 node) →
  first_raised stop1 l = first_raised stop2 l
  ∧ reached stop1 l = reached stop2 l.
Proof.
  induction l as [|n l IH]; intros Hagree; [done|].
  rewrite !first_raised_cons. simpl.
  rewrite <- (Hagree n) by (apply elem_of_cons; by left).
  destruct IH as [E1 E2].
  { intros node Hin. apply Hagree, elem_of_cons. by right. }
  destruct (stop1 n); [done|]. by rewrite E1, E2.
Qed.

Lemma foldl_count {A} (P : A → bool) (l : list A) : ∀ c : nat,
  foldl (λ c x, if P x then c + 1 else c) c l
  = c + length (filter (λ x, P x) l).
Proof.
  induction l as [|x l IH]; intros c; simpl; [lia|].
  rewrite IH, filter_cons. destruct (P x); simpl; lia.
Qed.

Lemma foldl_collect {A} (P : A → bool) (l : list A) : ∀ acc : list A,
  foldl (λ acc x, if P x then acc ++ [x] else acc) acc l
  = acc ++ filter (λ x, P x) l.
Proof.
  induction l as [|x l IH]; intros acc; simpl; [by rewrite app_nil_r|].
  rewrite IH, filter_cons. destruct (P x); simpl; [|done].
  by rewrite <- app_assoc.
Qed.

(** ** The loops of the scans *)

Section ScanFacts.

Context `{net : Collaborators}.
Variables (wallet cid oid : string) (shell : Shell).

(** A loop over nodes whose iteration sends one request, then ends the scan
    or updates the local, and logs at most one line. *)
Lemma for_each_node {S} (body : string → S → M World S)
    (stop : string → option PyExc) (update : string → S → S)
    (line : string → option string) :
  (∀ node acc w,
     body node acc w
     = (match stop node with
        | Some err => Raise err
        | None => Ok (update node acc)
        end,
        MkWorld (probes w ++ [probe wallet cid oid shell node])
          (log w ++ option_list (line node)))) →
  ∀ l acc w,
    for_each l body acc w
    = (match first_raised stop l with
       | Some err => Raise err
       | None => Ok (foldl (λ a node, update node a) acc l)
       end,
       MkWorld (probes w ++ (probe wallet cid oid shell <$> reached stop l))
         (log w ++ omap line (reached stop l))).
Proof.
  intros Hbody. unfold first_raised.
  induction l as [|node l IH]; intros acc w; simpl.
  - rewrite !app_nil_r. by destruct w.
  - unfold bind at 1. rewrite Hbody.
    destruct (stop node) as [err|]; simpl.
    + by destruct (line node).
    + rewrite IH. simpl. rewrite <- !app_assoc. simpl.
      by destruct (line node).
Qed.

Lemma simple_iteration_step node copies w :
  simple_iteration wallet cid oid shell node copies w
  = (match escaping wallet cid oid shell node with
     | Some err => Raise err
     | None => Ok (if counted wallet cid oid shell node
                   then copies + 1 else copies)
     end,
     MkWorld (probes w ++ [probe wallet cid oid shell node])
       (log w ++ option_list (simple_log_line wallet cid oid shell node))).
Proof.
  unfold simple_iteration, try_except, bind, head_object, escaping, counted,
    simple_log_line, outcome, probe.
  destruct (head_object_outcome _) as [response|err]; simpl.
  - destruct (truthy response); simpl; by rewrite ?app_nil_r.
  - destruct (caught err); simpl; by rewrite ?app_nil_r.
Qed.

Lemma with_iteration_step node nodes_list w :
  with_iteration wallet cid oid shell node nodes_list w
  = (match escaping wallet cid oid shell node with
     | Some err => Raise err
     | None => Ok (if found wallet cid oid shell node
                   then nodes_list ++ [node] else nodes_list)
     end,
     MkWorld (probes w ++ [probe wallet cid oid shell node])
       (log w ++ option_list (with_log_line wallet cid oid shell node))).
Proof.
  unfold with_iteration, try_except, bind, head_object, escaping, found,
    with_log_line, outcome, probe.
  destruct (head_object_outcome _) as [res|err]; simpl.
  - destruct (is_none res); simpl; by rewrite ?app_nil_r.
  - destruct (caught err); simpl; by rewrite ?app_nil_r.
Qed.

Lemma without_iteration_step node nodes_list w :
  without_iteration wallet cid oid shell node nodes_list w
  = (match aborting wallet cid oid shell node with
     | Some err => Raise err
     | None => Ok (if lacking wallet cid oid shell node
                   then nodes_list ++ [node] else nodes_list)
     end,
     MkWorld (probes w ++ [probe wallet cid oid shell node])
       (log w ++ option_list None)).
Proof.
  unfold without_iteration, try_except, bind, head_object, aborting, lacking,
    outcome, probe.
  destruct (head_object_outcome _) as [res|err]; simpl; rewrite app_nil_r.
  - by destruct (is_none res).
  - destruct (caught err); simpl; [|done].
    by destruct (error_matches_status err OBJECT_NOT_FOUND).
Qed.

(** What [get_simple_object_copies] returns and leaves behind. *)
Lemma simple_run w :
  get_simple_object_copies wallet cid oid shell w
  = (match first_raised (escaping wallet cid oid shell) NEOFS_NETMAP with
     | Some err => Raise err
     | None => Ok (length (filter (λ n, counted wallet cid oid shell n)
                             NEOFS_NETMAP))
     end,
     MkWorld
       (probes w ++ (probe wallet cid oid shell
                       <$> reached (escaping wallet cid oid shell)
                             NEOFS_NETMAP))
       (log w ++ omap (simple_log_line wallet cid oid shell)
                   (reached (escaping wallet cid oid shell) NEOFS_NETMAP))).
Proof.
  unfold get_simple_object_copies.
  rewrite (for_each_node _ (escaping wallet cid oid shell)
             (λ node copies, if counted wallet cid oid shell node
                             then copies + 1 else copies)
             (simple_log_line wallet cid oid shell))
    by apply simple_iteration_step.
  by rewrite (foldl_count (counted wallet cid oid shell)).
Qed.

(** What [get_nodes_with_object] returns and leaves behind. *)
Lemma with_run skip_nodes w :
  get_nodes_with_object wallet cid oid shell skip_nodes w
  = (match first_raised (escaping wallet cid oid shell)
             (nodes_to_search skip_nodes) with
     | Some err => Raise err
     | None => Ok (filter (λ n, found wallet cid oid shell n)
                     (nodes_to_search skip_nodes))
     end,
     MkWorld
       (probes w ++ (probe wallet cid oid shell
                       <$> reached (escaping wallet cid oid shell)
                             (nodes_to_search skip_nodes)))
       (log w ++ omap (with_log_line wallet cid oid shell)
                   (reached (escaping wallet cid oid shell)
                      (nodes_to_search skip_nodes)))).
Proof.
  unfold get_nodes_with_object.
  rewrite (for_each_node _ (escaping wallet cid oid shell)
             (λ node nodes_list, if found wallet cid oid shell node
                                 then nodes_list ++ [node] else nodes_list)
             (with_log_line wallet cid oid shell))
    by apply with_iteration_step.
  by rewrite (foldl_collect (found wallet cid oid shell)).
Qed.

(** What [get_nodes_without_object] returns and leaves behind. *)
Lemma without_run w :
  get_nodes_without_object wallet cid oid shell w
  = (match first_raised (aborting wallet cid oid shell) NEOFS_NETMAP with
     | Some err => Raise err
     | None => Ok (filter (λ n, lacking wallet cid oid shell n)
                     NEOFS_NETMAP)
     end,
     MkWorld
       (probes w ++ (probe wallet cid oid shell
                       <$> reached (aborting wallet cid oid shell)
                             NEOFS_NETMAP))
       (log w)).
Proof.
  unfold get_nodes_without_object.
  rewrite (for_each_node _ (aborting wallet cid oid shell)
             (λ node nodes_list, if lacking wallet cid oid shell node
                                 then nodes_list ++ [node] else nodes_list)
             (λ _, None))
    by apply without_iteration_step.
  rewrite (foldl_collect (lacking wallet cid oid shell)). simpl.
  do 2 f_equal.
  generalize (reached (aborting wallet cid oid shell) NEOFS_NETMAP).
  induction l as [|n l IH]; simpl; [by rewrite app_nil_r|done].
Qed.

Lemma simple_value w :
  value_of (get_simple_object_copies wallet cid oid shell w)
  = match first_raised (escaping wallet cid oid shell) NEOFS_NETMAP with
    | Some err => Raise err
    | None => Ok (length (filter (λ n, counted wallet cid oid shell n)
                            NEOFS_NETMAP))
    end.
Proof. by rewrite simple_run. Qed.

Lemma with_value skip_nodes w :
  value_of (get_nodes_with_object wallet cid oid shell skip_nodes w)
  = match first_raised (escaping wallet cid oid shell)
            (nodes_to_search skip_nodes) with
    | Some err => Raise err
    | None => Ok (filter (λ n, found wallet cid oid shell n)
                    (nodes_to_search skip_nodes))
    end.
Proof. by rewrite with_run. Qed.

Lemma without_value w :
  value_of (get_nodes_without_object wallet cid oid shell w)
  = match first_raised (aborting wallet cid oid shell) NEOFS_NETMAP with
    | Some err => Raise err
    | None => Ok (filter (λ n, lacking wallet cid oid shell n) NEOFS_NETMAP)
    end.
Proof. by rewrite without_run. Qed.

Lemma simple_probes w :
  probes_of (get_simple_object_copies wallet cid oid shell w)
  = probes w ++ (probe wallet cid oid shell
                   <$> reached (escaping wallet cid oid shell) NEOFS_NETMAP).
Proof. by rewrite simple_run. Qed.

Lemma with_probes skip_nodes w :
  probes_of (get_nodes_with_object wallet cid oid shell skip_nodes w)
  = probes w ++ (probe wallet cid oid shell
                   <$> reached (escaping wallet cid oid shell)
                         (nodes_to_search skip_nodes)).
Proof. by rewrite with_run. Qed.

Lemma without_probes w :
  probes_of (get_nodes_without_object wallet cid oid shell w)
  = probes w ++ (probe wallet cid oid shell
                   <$> reached (aborting wallet cid oid shell) NEOFS_NETMAP).
Proof. by rewrite without_run. Qed.

(** A node at which the scan for the nodes without the object goes on lets
    the other scans go on too. *)
Lemma aborting_None_escaping node :
  aborting wallet cid oid shell node = None →
  escaping wallet cid oid shell node = None.
Proof.
  unfold aborting, escaping.
  destruct (outcome wallet cid oid shell node) as [res|err]; [done|].
  by destruct (caught err).
Qed.

(** Such a node is lacking exactly when it is not found. *)
Lemma lacking_not_found node :
  aborting wallet cid oid shell node = None →
  lacking wallet cid oid shell node = negb (found wallet cid oid shell node).
Proof.
  unfold aborting, lacking, found.
  destruct (outcome wallet cid oid shell node) as [res|err].
  - by rewrite negb_involutive.
  - destruct (caught err); [|done].
    by destruct (error_matches_status err OBJECT_NOT_FOUND).
Qed.

Lemma nodes_to_search_filter skip_nodes :
  nodes_to_search skip_nodes
  = filter (λ node, node ∉ default [] skip_nodes) NEOFS_NETMAP.
Proof.
  assert (Hid : ∀ l : list string, l = filter (λ node, node ∉ @nil string) l).
  { induction l as [|x l IH]; [done|].
    rewrite filter_cons_True by (intros Hx; inversion Hx). by f_equal. }
  destruct skip_nodes as [[|s skip]|]; simpl; auto.
Qed.

End ScanFacts.

(** ** The claims on the scans *)

Section ScanClaims.

Context `{net : Collaborators}.
Variables (wallet cid oid : string) (shell : Shell).

(** C2, as the code has it.  Each scan returns or raises as its first
    stopping node says.  An Exception raised by a probe never stops
    [get_simple_object_copies] nor [get_nodes_with_object], whatever its
    status: the node is neither counted nor listed and the scan goes on.
    It stops [get_nodes_without_object] exactly when its status is not
    not-found, and the scan then raises a new Exception from it; with the
    not-found status the node is listed and the scan goes on.  An error that
    is not an Exception stops each of the three scans and is raised as it
    is. *)
Theorem C2_only_the_without_scan_aborts w :
  value_of (get_nodes_without_object wallet cid oid shell w)
  = match first_raised (aborting wallet cid oid shell) NEOFS_NETMAP with
    | Some err => Raise err
    | None => Ok (filter (λ n, lacking wallet cid oid shell n) NEOFS_NETMAP)
    end
  ∧ value_of (get_simple_object_copies wallet cid oid shell w)
    = match first_raised (escaping wallet cid oid shell) NEOFS_NETMAP with
      | Some err => Raise err
      | None => Ok (length (filter (λ n, counted wallet cid oid shell n)
                              NEOFS_NETMAP))
      end
  ∧ value_of (get_nodes_with_object wallet cid oid shell None w)
    = match first_raised (escaping wallet cid oid shell) NEOFS_NETMAP with
      | Some err => Raise err
      | None => Ok (filter (λ n, found wallet cid oid shell n) NEOFS_NETMAP)
      end
  ∧ (∀ stop, first_raised stop NEOFS_NETMAP = None
             ↔ ∀ node, node ∈ NEOFS_NETMAP → stop node = None)
  ∧ (∀ node err,
       outcome wallet cid oid shell node = Raise err →
       caught err = true →
       escaping wallet cid oid shell node = None
       ∧ counted wallet cid oid shell node = false
       ∧ found wallet cid oid shell node = false
       ∧ lacking wallet cid oid shell node
         = error_matches_status err OBJECT_NOT_FOUND
       ∧ aborting wallet cid oid shell node
         = if error_matches_status err OBJECT_NOT_FOUND then None
           else Some (head_failure err))
  ∧ (∀ node err,
       outcome wallet cid oid shell node = Raise err →
       caught err = false →
       escaping wallet cid oid shell node = Some err
       ∧ aborting wallet cid oid shell node = Some err)
  ∧ (∀ node res,
       outcome wallet cid oid shell node = Ok res →
       escaping wallet cid oid shell node = None
       ∧ aborting wallet cid oid shell node = None).
Proof.
  split; [apply without_value|].
  split; [apply simple_value|].
  split; [apply (with_value _ _ _ _ None)|].
  split; [intros stop; apply first_raised_None|].
  split; [|split].
  - intros node err E Hc.
    unfold escaping, counted, found, lacking, aborting. by rewrite E, Hc.
  - intros node err E Hc. unfold escaping, aborting. by rewrite E, Hc.
  - intros node res E. unfold escaping, aborting. by rewrite E.
Qed.

(** C3.  When every error that a probe raises is an Exception of the
    not-found status, the scan for the nodes with the object (no node
    skipped) and the scan for the nodes without it both return, and their
    lists split NEOFS_NETMAP: no node is in both, every node of the map is in
    one of them and they hold no other node; taken together they are the map,
    up to order. *)
Theorem C3_with_and_without_partition_the_netmap w1 w2 :
  (∀ node err, node ∈ NEOFS_NETMAP →
     outcome wallet cid oid shell node = Raise err →
     caught err = true ∧ error_matches_status err OBJECT_NOT_FOUND = true) →
  ∃ nodes_with nodes_without,
    value_of (get_nodes_with_object wallet cid oid shell None w1)
      = Ok nodes_with
    ∧ value_of (get_nodes_without_object wallet cid oid shell w2)
      = Ok nodes_without
    ∧ (∀ node, node ∈ nodes_with → node ∉ nodes_without)
    ∧ (∀ node, node ∈ NEOFS_NETMAP
               ↔ node ∈ nodes_with ∨ node ∈ nodes_without)
    ∧ nodes_with ++ nodes_without ≡ₚ NEOFS_NETMAP.
Proof.
  intros Hnot_found.
  assert (Hclean : ∀ node, node ∈ NEOFS_NETMAP →
                     aborting wallet cid oid shell node = None).
  { intros node Hin. unfold aborting.
    destruct (outcome wallet cid oid shell node) as [res|err] eqn:E; [done|].
    destruct (Hnot_found node err Hin E) as [-> ->]. done. }
  assert (Hgo : ∀ node, node ∈ NEOFS_NETMAP →
                  escaping wallet cid oid shell node = None).
  { intros node Hin. by apply aborting_None_escaping, Hclean. }
  exists (filter (λ n, found wallet cid oid shell n) NEOFS_NETMAP),
         (filter (λ n, lacking wallet cid oid shell n) NEOFS_NETMAP).
  split.
  { rewrite with_value. simpl.
    apply first_raised_None in Hgo. by rewrite Hgo. }
  split.
  { rewrite without_value.
    apply first_raised_None in Hclean. by rewrite Hclean. }
  assert (Hsame : filter (λ n, lacking wallet cid oid shell n) NEOFS_NETMAP
                  = filter (λ n, ¬ found wallet cid oid shell n) NEOFS_NETMAP).
  { clear Hgo Hnot_found. revert Hclean. generalize NEOFS_NETMAP.
    induction l as [|n l IH]; intros Hclean; [done|].
    rewrite !filter_cons, IH.
    - rewrite lacking_not_found by (apply Hclean, elem_of_cons; by left).
      destruct (found wallet cid oid shell n); simpl; done.
    - intros node Hin. apply Hclean, elem_of_cons. by right. }
  rewrite Hsame. split; [|split].
  - intros node Hin Hout.
    apply list_elem_of_filter in Hin as [Hf _].
    apply list_elem_of_filter in Hout as [Hnf _]. done.
  - intros node. rewrite !list_elem_of_filter. split.
    + intros Hin.
      destruct (decide (found wallet cid oid shell node)); [left|right]; done.
    + intros [[_ Hin]|[_ Hin]]; done.
  - apply filter_app_complement.
Qed.

(** C7.  In [get_nodes_without_object] a probe that returns [None] and a
    probe that raises an Exception of status OBJECT_NOT_FOUND do the same:
    the iteration appends the node to the list and the scan goes on, and so
    a scan that returns has the node in its list. *)
Theorem C7_none_and_not_found_alike node :
  (outcome wallet cid oid shell node = Ok PyNone
   ∨ ∃ err, outcome wallet cid oid shell node = Raise err
            ∧ caught err = true
            ∧ error_matches_status err OBJECT_NOT_FOUND = true) →
  (∀ nodes_list w,
     without_iteration wallet cid oid shell node nodes_list w
     = (Ok (nodes_list ++ [node]),
        MkWorld (probes w ++ [probe wallet cid oid shell node]) (log w)))
  ∧ (∀ w nodes_without,
       node ∈ NEOFS_NETMAP →
       value_of (get_nodes_without_object wallet cid oid shell w)
       = Ok nodes_without →
       node ∈ nodes_without).
Proof.
  intros Habsent.
  assert (Hl : lacking wallet cid oid shell node = true
               ∧ aborting wallet cid oid shell node = None).
  { unfold lacking, aborting.
    destruct Habsent as [->|(err & -> & -> & ->)]; done. }
  destruct Hl as [Hl Hh]. split.
  - intros nodes_list w. rewrite without_iteration_step, Hh, Hl. simpl.
    by rewrite app_nil_r.
  - intros w nodes_without Hin. rewrite without_value.
    destruct (first_raised _ _); [done|].
    intros [= <-]. apply list_elem_of_filter. by rewrite Hl.
Qed.

(** C8, as the code has it.  Each scan (no node skipped) sends one direct
    HEAD request to each entry of NEOFS_NETMAP in the order of the map, up to
    and including the first node that stops it, and none after: to every
    entry when no node stops it.  [get_simple_object_copies] and
    [get_nodes_with_object] are stopped only by an error that is not an
    Exception; [get_nodes_without_object] is stopped by that and by an
    Exception of another status than not-found.  When a scan returns, whether
    a node is counted or listed depends on what that node answers and on no
    other node. *)
Theorem C8_one_direct_probe_per_reached_node w :
  probes_of (get_simple_object_copies wallet cid oid shell w)
  = probes w ++ (probe wallet cid oid shell
                   <$> reached (escaping wallet cid oid shell) NEOFS_NETMAP)
  ∧ probes_of (get_nodes_with_object wallet cid oid shell None w)
    = probes w ++ (probe wallet cid oid shell
                     <$> reached (escaping wallet cid oid shell) NEOFS_NETMAP)
  ∧ probes_of (get_nodes_without_object wallet cid oid shell w)
    = probes w ++ (probe wallet cid oid shell
                     <$> reached (aborting wallet cid oid shell) NEOFS_NETMAP)
  ∧ (∀ stop, (∀ node, node ∈ NEOFS_NETMAP → stop node = None) →
             reached stop NEOFS_NETMAP = NEOFS_NETMAP)
  ∧ (∀ stop l1 node l2 err,
       NEOFS_NETMAP = l1 ++ node :: l2 →
       (∀ n, n ∈ l1 → stop n = None) →
       stop node = Some err →
       reached stop NEOFS_NETMAP = l1 ++ [node])
  ∧ (∀ node,
       escaping wallet cid oid shell node
       = match outcome wallet cid oid shell node with
         | Ok _ => None
         | Raise err => if caught err then None else Some err
         end
       ∧ aborting wallet cid oid shell node
         = match outcome wallet cid oid shell node with
           | Ok _ => None
           | Raise err =>
               if caught err then
                 if error_matches_status err OBJECT_NOT_FOUND then None
                 else Some (head_failure err)
               else Some err
           end)
  ∧ (∀ node, hc_endpoint (probe wallet cid oid shell node) = node
             ∧ hc_is_direct (probe wallet cid oid shell node) = true)
  ∧ (∀ copies,
       value_of (get_simple_object_copies wallet cid oid shell w) = Ok copies →
       copies = length (filter (λ n, counted wallet cid oid shell n)
                          NEOFS_NETMAP))
  ∧ (∀ nodes_with,
       value_of (get_nodes_with_object wallet cid oid shell None w)
       = Ok nodes_with →
       nodes_with = filter (λ n, found wallet cid oid shell n) NEOFS_NETMAP)
  ∧ ∀ nodes_without,
      value_of (get_nodes_without_object wallet cid oid shell w)
      = Ok nodes_without →
      nodes_without
      = filter (λ n, lacking wallet cid oid shell n) NEOFS_NETMAP.
Proof.
  split; [apply simple_probes|].
  split; [apply (with_probes _ _ _ _ None)|].
  split; [apply without_probes|].
  split; [intros stop Hclean; by apply reached_all, first_raised_None|].
  split.
  { intros stop l1 node l2 err -> Hl1 Hnode.
    by destruct (reached_split stop l1 node l2 err Hl1 Hnode). }
  split; [done|].
  split; [done|].
  split; [|split].
  - intros copies. rewrite simple_value.
    destruct (first_raised _ _); [done|]. by intros [= <-].
  - intros nodes_with. rewrite with_value. simpl.
    destruct (first_raised _ _); [done|]. by intros [= <-].
  - intros nodes_without. rewrite without_value.
    destruct (first_raised _ _); [done|]. by intros [= <-].
Qed.

(** C9, as the code has it.  When no node answers with an empty header (a
    response that is not [None] and yet false), [get_simple_object_copies]
    and [get_nodes_with_object] with no node skipped end alike: when the one
    returns a list the other returns its length, and when the one raises an
    error the other raises the same error. *)
Theorem C9_count_is_length_of_nodes_with w1 w2 :
  (∀ node res, node ∈ NEOFS_NETMAP →
     outcome wallet cid oid shell node = Ok res →
     truthy res = negb (is_none res)) →
  match value_of (get_nodes_with_object wallet cid oid shell None w1) with
  | Ok nodes_with =>
      value_of (get_simple_object_copies wallet cid oid shell w2)
      = Ok (length nodes_with)
  | Raise err =>
      value_of (get_simple_object_copies wallet cid oid shell w2) = Raise err
  end.
Proof.
  intros Hfull. rewrite with_value, simple_value. simpl.
  destruct (first_raised _ _); [done|]. do 2 f_equal.
  revert Hfull. generalize NEOFS_NETMAP.
  induction l as [|n l IH]; intros Hfull; [done|].
  rewrite !filter_cons, IH.
  - assert (E : counted wallet cid oid shell n = found wallet cid oid shell n).
    { unfold counted, found.
      destruct (outcome wallet cid oid shell n) as [res|err] eqn:E; [|done].
      eapply Hfull; [|done]. apply elem_of_cons. by left. }
    by rewrite E.
  - intros node res Hin. apply Hfull, elem_of_cons. by right.
Qed.

(** C10.  Whatever [skip_nodes] is, [get_nodes_with_object] scans
    NEOFS_NETMAP without the skipped nodes, in the order of the map: its
    requests go to a prefix of these nodes, none of them to a skipped node;
    it returns unless a probe raises an error that is not an Exception, and
    what it returns is a sublist of the searched nodes, in their order, that
    holds no skipped node. *)
Theorem C10_skipped_nodes_left_out skip_nodes w :
  let skipped := default [] skip_nodes in
  let searched := filter (λ node, node ∉ skipped) NEOFS_NETMAP in
  let asked := reached (escaping wallet cid oid shell) searched in
  searched `sublist_of` NEOFS_NETMAP
  ∧ asked `prefix_of` searched
  ∧ probes_of (get_nodes_with_object wallet cid oid shell skip_nodes w)
    = probes w ++ (probe wallet cid oid shell <$> asked)
  ∧ (∀ node, node ∈ skipped →
       probe wallet cid oid shell node
         ∉ (probe wallet cid oid shell <$> asked))
  ∧ value_of (get_nodes_with_object wallet cid oid shell skip_nodes w)
    = match first_raised (escaping wallet cid oid shell) searched with
      | Some err => Raise err
      | None => Ok (filter (λ n, found wallet cid oid shell n) searched)
      end
  ∧ ((∀ node err, node ∈ searched →
        outcome wallet cid oid shell node = Raise err → caught err = true) →
     value_of (get_nodes_with_object wallet cid oid shell skip_nodes w)
     = Ok (filter (λ n, found wallet cid oid shell n) searched)
     ∧ asked = searched)
  ∧ ∀ nodes_with,
      value_of (get_nodes_with_object wallet cid oid shell skip_nodes w)
      = Ok nodes_with →
      nodes_with `sublist_of` searched
      ∧ nodes_with `sublist_of` NEOFS_NETMAP
      ∧ ∀ node, node ∈ nodes_with → node ∉ skipped.
Proof.
  intros skipped searched asked.
  rewrite with_value, with_probes. unfold asked, searched, skipped.
  rewrite <- nodes_to_search_filter.
  set (l := nodes_to_search skip_nodes).
  assert (Hsub : l `sublist_of` NEOFS_NETMAP).
  { unfold l. rewrite nodes_to_search_filter. apply sublist_filter. }
  assert (Hskip : ∀ node, node ∈ l → node ∉ default [] skip_nodes).
  { intros node. unfold l. rewrite nodes_to_search_filter.
    intros Hin. by apply list_elem_of_filter in Hin as [Hns _]. }
  split; [done|].
  split; [apply reached_prefix|].
  split; [done|].
  split.
  { intros node Hs Hin.
    apply list_elem_of_fmap in Hin as (node' & Heq & Hin').
    injection Heq as <-.
    destruct (reached_prefix (escaping wallet cid oid shell) l) as [k Hk].
    apply (Hskip node); [|done].
    rewrite Hk. apply elem_of_app. by left. }
  split; [done|].
  split.
  { intros Hcaught.
    assert (Hgo : first_raised (escaping wallet cid oid shell) l = None).
    { apply first_raised_None. intros node Hin. unfold escaping.
      destruct (outcome wallet cid oid shell node) as [res|err] eqn:E; [done|].
      by rewrite (Hcaught node err Hin E). }
    rewrite Hgo. split; [done|]. by apply reached_all. }
  intros nodes_with.
  destruct (first_raised _ _); [done|]. intros [= <-].
  split; [apply sublist_filter|].
  split; [by etrans; [apply sublist_filter|]|].
  intros node Hin. apply list_elem_of_filter in Hin as [_ Hin]. by apply Hskip.
Qed.

End ScanClaims.

Section ComplexObjects.

Context `{net : Collaborators}.
Variables (wallet cid oid : string) (shell : Shell).

(** C4.  [get_complex_object_copies] asks for the last part of the object.
    When that gives an object id (a string that is not empty), the call is
    the call of [get_simple_object_copies] on that id, and returns what any
    such call returns; when it gives [None], or the empty string, the call
    raises an AssertionError and returns no count; when it raises, so does
    the call. *)
Theorem C4_complex_copies_are_copies_of_last_part w last w' :
  get_last_object wallet cid oid shell w = (last, w') →
  match last with
  | Ok (Some last_oid) =>
      if String.eqb last_oid EmptyString then
        ∃ msg, get_complex_object_copies wallet cid oid shell w
               = (Raise (MkExc AssertionErrorC msg), w')
      else
        get_complex_object_copies wallet cid oid shell w
        = get_simple_object_copies wallet cid last_oid shell w'
        ∧ ∀ w0, value_of (get_complex_object_copies wallet cid oid shell w)
                = value_of (get_simple_object_copies wallet cid last_oid shell w0)
  | Ok None =>
      ∃ msg, get_complex_object_copies wallet cid oid shell w
             = (Raise (MkExc AssertionErrorC msg), w')
  | Raise err =>
      get_complex_object_copies wallet cid oid shell w = (Raise err, w')
  end.
Proof.
  intros Hlast. unfold get_complex_object_copies, bind. rewrite Hlast.
  destruct last as [[last_oid|]|err]; simpl; eauto.
  destruct (String.eqb last_oid EmptyString); simpl; eauto.
  split; [done|]. intros w0. by rewrite !simple_value.
Qed.

End ComplexObjects.

(** ** The scans on the concrete networks *)

(** C2 as stated fails: on [flaky_network] the probe of [s02] fails with a
    timeout, an Exception that has not the not-found status, and neither
    [get_simple_object_copies] nor [get_nodes_with_object] aborts. *)
Lemma C2_scans_survive_a_hard_error :
  s02 ∈ @NEOFS_NETMAP flaky_network
  ∧ outcome (net := flaky_network) the_wallet the_cid the_oid CliShell s02
    = Raise timeout_error
  ∧ caught timeout_error = true
  ∧ @error_matches_status flaky_network timeout_error
      (@OBJECT_NOT_FOUND flaky_network) = false
  ∧ value_of (get_simple_object_copies (net := flaky_network)
                the_wallet the_cid the_oid CliShell empty_world) = Ok 1
  ∧ value_of (get_nodes_with_object (net := flaky_network)
                the_wallet the_cid the_oid CliShell None empty_world) = Ok [s01].
Proof.
  split; [repeat constructor|].
  repeat split; vm_compute; reflexivity.
Qed.

(** C8 as stated fails: on [flaky_network] the scan of
    [get_nodes_without_object] stops at [s02]; [s03] and [s04], nodes of the
    map, get no request. *)
Lemma C8_without_scan_stops_at_a_hard_error :
  @NEOFS_NETMAP flaky_network = [s01; s02; s03; s04]
  ∧ probes_of (get_nodes_without_object (net := flaky_network)
                 the_wallet the_cid the_oid CliShell empty_world)
    = [probe the_wallet the_cid the_oid CliShell s01; probe the_wallet the_cid the_oid CliShell s02].
Proof. split; vm_compute; reflexivity. Qed.

(** C9 as stated fails: on [empty_header_network] the node [s01] answers
    with an empty header; [get_simple_object_copies] counts no copy and
    [get_nodes_with_object] lists [s01]. *)
Lemma C9_empty_header_counted_differently :
  outcome (net := empty_header_network) the_wallet the_cid the_oid CliShell s01
  = Ok (PyDict ∅)
  ∧ value_of (get_simple_object_copies (net := empty_header_network)
                the_wallet the_cid the_oid CliShell empty_world) = Ok 0
  ∧ value_of (get_nodes_with_object (net := empty_header_network)
                the_wallet the_cid the_oid CliShell None empty_world) = Ok [s01].
Proof. repeat split; vm_compute; reflexivity. Qed.

Lemma C3_on_healthy_network :
  ∃ nodes_with nodes_without,
    value_of (get_nodes_with_object (net := healthy_network)
                the_wallet the_cid the_oid CliShell None empty_world) = Ok nodes_with
    ∧ value_of (get_nodes_without_object (net := healthy_network)
                  the_wallet the_cid the_oid CliShell empty_world) = Ok nodes_without
    ∧ (∀ node, node ∈ nodes_with → node ∉ nodes_without)
    ∧ (∀ node, node ∈ @NEOFS_NETMAP healthy_network
               ↔ node ∈ nodes_with ∨ node ∈ nodes_without)
    ∧ nodes_with ++ nodes_without ≡ₚ @NEOFS_NETMAP healthy_network.
Proof.
  apply (C3_with_and_without_partition_the_netmap (net := healthy_network)).
  intros node err Hin.
  repeat (apply elem_of_cons in Hin as [->|Hin]);
    [vm_compute; intros [= <-]; split; reflexivity ..|].
  by apply elem_of_nil in Hin.
Defined.

Lemma C7_on_healthy_network :
  (∀ nodes_list w,
     without_iteration (net := healthy_network)
       the_wallet the_cid the_oid CliShell s03 nodes_list w
     = (Ok (nodes_list ++ [s03]),
        MkWorld (probes w ++ [probe the_wallet the_cid the_oid CliShell s03])
          (log w)))
  ∧ (∀ w nodes_without,
       s03 ∈ @NEOFS_NETMAP healthy_network →
       value_of (get_nodes_without_object (net := healthy_network)
                   the_wallet the_cid the_oid CliShell w) = Ok nodes_without →
       s03 ∈ nodes_without).
Proof.
  apply (C7_none_and_not_found_alike (net := healthy_network)).
  right. exists not_found_error. repeat split; vm_compute; reflexivity.
Defined.

Lemma C9_on_healthy_network :
  value_of (get_simple_object_copies (net := healthy_network)
              the_wallet the_cid the_oid CliShell empty_world)
  = Ok (length [s01]).
Proof.
  refine (C9_count_is_length_of_nodes_with (net := healthy_network)
            the_wallet the_cid the_oid CliShell empty_world empty_world _).
  intros node res Hin.
  repeat (apply elem_of_cons in Hin as [->|Hin]);
    [vm_compute; intros [= <-]; reflexivity ..|].
  by apply elem_of_nil in Hin.
Defined.

Lemma C4_on_healthy_network :
  let last_oid := "6Z7mFkGTc7EKoXcRwm5fTAoCyZ9WHHJCkqLZ3WFVyGCt" in
  get_complex_object_copies (net := healthy_network)
    the_wallet the_cid the_oid CliShell empty_world
  = get_simple_object_copies (net := healthy_network)
      the_wallet the_cid last_oid CliShell empty_world
  ∧ ∀ w0, value_of (get_complex_object_copies (net := healthy_network)
                      the_wallet the_cid the_oid CliShell empty_world)
          = value_of (get_simple_object_copies (net := healthy_network)
                        the_wallet the_cid last_oid CliShell w0).
Proof.
  exact (C4_complex_copies_are_copies_of_last_part (net := healthy_network)
           the_wallet the_cid the_oid CliShell empty_world _ empty_world eq_refl).
Defined.

(** ** The placement policy of the session-token test *)

Lemma append_cons c (s1 s2 : string) :
  String c s1 +:+ s2 = String c (s1 +:+ s2).
Proof. reflexivity. Qed.

Lemma append_empty_l (s : string) : EmptyString +:+ s = s.
Proof. reflexivity. Qed.

Lemma append_assoc (s1 s2 s3 : string) :
  (s1 +:+ s2) +:+ s3 = s1 +:+ (s2 +:+ s3).
Proof.
  induction s1 as [|c s1 IH]; [done|]. by rewrite !append_cons, IH.
Qed.

Lemma append_empty_r (s : string) : s +:+ EmptyString = s.
Proof.
  induction s as [|c s IH]; [done|]. by rewrite append_cons, IH.
Qed.

Lemma eqb_empty_append word c :
  String.eqb (word +:+ String c EmptyString) EmptyString = false.
Proof. by destruct word. Qed.

(** Separators between tokens are skipped. *)
Lemma split_from_blank gap s :
  blank gap = true →
  split_from EmptyString (gap +:+ s) = split_from EmptyString s.
Proof.
  unfold blank. induction gap as [|c gap IH]; simpl; [done|].
  intros [Hc Hgap]%andb_prop. rewrite Hc. simpl. auto.
Qed.

(** The characters of a token are added to the word being read. *)
Lemma split_from_word chars : ∀ word s,
  all_chars (λ c, negb (isspace c)) chars = true →
  split_from word (chars +:+ s) = split_from (word +:+ chars) s.
Proof.
  induction chars as [|c chars IH]; intros word s; simpl.
  - by rewrite append_empty_r.
  - intros [Hc Hchars]%andb_prop. apply negb_true_iff in Hc. rewrite Hc.
    rewrite IH by done. by rewrite append_assoc.
Qed.

(** A token that is followed by a separator, or by nothing, is given out. *)
Lemma split_from_token word s :
  token word = true → token_ends s = true →
  split_from EmptyString (word +:+ s)
  = word :: match s with
            | EmptyString => []
            | String _ rest => split_from EmptyString rest
            end.
Proof.
  unfold token. intros [Hne Hchars]%andb_prop Hend.
  rewrite split_from_word by done. rewrite append_empty_l.
  apply negb_true_iff in Hne.
  destruct s as [|c rest]; simpl in *; rewrite ?Hend, Hne; done.
Qed.

(** While a word is being read, the scanner takes the characters up to the
    next separator and gives the word out. *)
Lemma split_from_reading s : ∀ word,
  word ≠ EmptyString →
  ∃ chars rest,
    s = chars +:+ rest
    ∧ all_chars (λ c, negb (isspace c)) chars = true
    ∧ token_ends rest = true
    ∧ split_from word s
      = (word +:+ chars) :: split_from EmptyString (after_first rest).
Proof.
  induction s as [|c s IH]; intros word Hword.
  - exists EmptyString, EmptyString. rewrite (append_empty_r word). simpl.
    apply String.eqb_neq in Hword. by rewrite Hword.
  - simpl. destruct (isspace c) eqn:Hc.
    + exists EmptyString, (String c s). rewrite (append_empty_r word). simpl.
      apply String.eqb_neq in Hword. by rewrite Hword.
    + destruct (IH (word +:+ String c EmptyString)) as
        (chars & rest & -> & Hchars & Hrest & Hsplit).
      { by destruct word. }
      exists (String c chars), rest. simpl. rewrite Hc, Hchars. simpl.
      rewrite Hsplit, append_assoc. done.
Qed.

(** Between words, the scanner finds the next token, or nothing. *)
Lemma split_from_between s :
  split_from EmptyString s = []
  ∨ ∃ lead first rest,
      s = lead +:+ first +:+ rest
      ∧ blank lead = true ∧ token first = true ∧ token_ends rest = true
      ∧ split_from EmptyString s
        = first :: split_from EmptyString (after_first rest).
Proof.
  induction s as [|c s IH]; [by left|].
  simpl. destruct (isspace c) eqn:Hc.
  - destruct IH as [IH|(lead & first & rest & -> & Hlead & Hfirst & Hrest & E)];
      [by left|right].
    exists (String c lead), first, rest. unfold blank in *. simpl.
    rewrite Hc, Hlead. done.
  - right.
    destruct (split_from_reading s (String c EmptyString))
      as (chars & rest & -> & Hchars & Hrest & E); [done|].
    exists EmptyString, (String c chars), rest. unfold token. simpl.
    rewrite Hc, Hchars. done.
Qed.

(** C5.  The group name is SPB for the locode RU LED.  For any other locode
    it is the second token of the locode: when the locode is separators, a
    token, at least one separator, a second token, and then ends or goes on
    with a separator, the name is that second token; and a name that the
    code finds is the second token of the locode in this way. *)
Theorem C5_group_name_of_locode un_locode :
  (un_locode = "RU LED" → locode un_locode = Ok "SPB")
  ∧ (un_locode ≠ "RU LED" →
     ∀ lead first gap second rest,
       un_locode = lead +:+ first +:+ gap +:+ second +:+ rest →
       blank lead = true → token first = true →
       blank gap = true → gap ≠ EmptyString →
       token second = true → token_ends rest = true →
       locode un_locode = Ok second)
  ∧ (un_locode ≠ "RU LED" →
     ∀ group, locode un_locode = Ok group →
       ∃ lead first gap rest,
         un_locode = lead +:+ first +:+ gap +:+ group +:+ rest
         ∧ blank lead = true ∧ token first = true
         ∧ blank gap = true ∧ gap ≠ EmptyString
         ∧ token group = true ∧ token_ends rest = true).
Proof.
  split; [by intros ->|]. split.
  - intros Hother lead first gap second rest -> Hlead Hfirst Hgap Hgap1
      Hsecond Hrest.
    unfold locode. apply String.eqb_neq in Hother. rewrite Hother.
    unfold split. rewrite split_from_blank by done.
    destruct gap as [|c gap]; [done|].
    apply andb_prop in Hgap as [Hc Hgap].
    rewrite split_from_token by done. simpl.
    rewrite split_from_blank by done.
    rewrite split_from_token by done. done.
  - intros Hother group. unfold locode, split.
    apply String.eqb_neq in Hother. rewrite Hother.
    destruct (split_from_between un_locode)
      as [->|(lead & first & rest & -> & Hlead & Hfirst & Hrest & ->)];
      [done|].
    simpl. destruct rest as [|c rest]; [done|]. simpl in *.
    destruct (split_from_between rest)
      as [->|(gap & second & rest' & -> & Hgap & Hsecond & Hrest' & ->)];
      [done|].
    simpl. intros [= <-].
    exists lead, first, (String c gap), rest'. unfold blank in *. simpl.
    rewrite Hrest, Hgap. done.
Qed.

Lemma C5_on_FI_HEL : locode "FI HEL" = Ok "HEL".
Proof.
  refine (proj1 (proj2 (C5_group_name_of_locode "FI HEL")) _
            EmptyString "FI" " " "HEL" EmptyString
            eq_refl eq_refl eq_refl eq_refl _ eq_refl eq_refl);
    discriminate.
Defined.

(** With fewer than two tokens there is no group name: the index fails. *)
Lemma locode_of_one_token :
  locode "MOSCOW" = Raise (MkExc IndexErrorC "list index out of range").
Proof. reflexivity. Qed.

(** C6.  The rule given to container creation is the text of the grammar
    REP n IN group CBF m SELECT k FROM group AS group FILTER attr EQ value AS
    group with n, m and k equal to 1, the groups built from the group name,
    the attribute UN-LOCODE and the locode as its value; written out, it is
    the one string of the claim. *)
Theorem C6_placement_policy_text group un_locode :
  placement_policy group un_locode
  = policy_text {|
      rep := 1; rep_in := "LOC_" +:+ group +:+ "_PLACE";
      cbf := 1;
      select := 1; select_from := "LOC_" +:+ group;
      select_as := "LOC_" +:+ group +:+ "_PLACE";
      filter_attr := "UN-LOCODE"; filter_value := un_locode;
      filter_as := "LOC_" +:+ group |}
  ∧ placement_policy group un_locode
    = "REP 1 IN LOC_" +:+ group +:+ "_PLACE CBF 1 SELECT 1 FROM LOC_"
      +:+ group +:+ " AS LOC_" +:+ group +:+ "_PLACE FILTER "
      +:+ dquote +:+ "UN-LOCODE" +:+ dquote +:+ " EQ "
      +:+ dquote +:+ un_locode +:+ dquote +:+ " AS LOC_" +:+ group.
Proof.
  unfold placement_policy, policy_text. simpl.
  repeat (rewrite !append_assoc; simpl). done.
Qed.

(** ** The session authorization guard *)

(** ** The session authorization guard *)

Section Guard.

Import Session.

#[local] Existing Instance guarded_keywords.

(** A node has a record only of tokens that were issued. *)
Lemma known_tokens_issued net :
  reachable net →
  ∀ node id, id ∈ known_tokens net node → id < issued net.
Proof.
  induction 1 as [places time|net owner target from until ops Hr IH
                 |net places time Hr IH]; intros node id; simpl.
  - unfold known_tokens. simpl. rewrite lookup_empty. set_solver.
  - unfold known_tokens at 1. simpl.
    destruct (decide (target = node)) as [->|Hne].
    + rewrite lookup_insert_eq. simpl.
      intros [->%elem_of_singleton|Hin%IH]%elem_of_union; lia.
    + rewrite lookup_insert_ne by done. intros Hin%IH. lia.
  - apply IH.
Qed.

(** Whatever the network does later, the nodes that have a record of an
    issued token stay the same. *)
Lemma later_keeps_records net net' :
  later net net' →
  (issued net ≤ issued net')%nat
  ∧ ∀ node id, id < issued net →
      (id ∈ known_tokens net' node ↔ id ∈ known_tokens net node).
Proof.
  induction 1 as [|net' owner target from until ops Hl [IHle IH]
                 |net' places time Hl [IHle IH]]; simpl.
  - done.
  - split; [lia|]. intros node id Hid. rewrite <- (IH node id Hid).
    unfold known_tokens at 1. simpl.
    destruct (decide (target = node)) as [->|Hne].
    + rewrite lookup_insert_eq. simpl. rewrite elem_of_union, elem_of_singleton.
      split; [intros [->|Hin]; [lia|done] | by right].
    + by rewrite lookup_insert_ne.
  - split; [done|]. intros node id Hid. by rewrite <- (IH node id Hid).
Qed.

(** What the guard answers for a token created against [A], in any later
    state of the network. *)
Lemma authorize_created_token net owner A from until ops net' op object time :
  reachable net →
  let session := CreateSessionToken net owner A from until ops in
  later session.2 net' →
  op ∈ ops → in_window session.1 time →
  Authorize net' session.1 A op object time = Allow
  ∧ ∀ B, B ≠ A →
      Authorize net' session.1 B op object time = Deny SessionNotFound.
Proof.
  intros Hr session Hlater Hop [Hfrom Huntil].
  destruct (later_keeps_records _ _ Hlater) as [_ Hkeep].
  assert (Hrecord : ∀ node, issued net ∈ known_tokens net' node ↔ node = A).
  { intros node. rewrite (Hkeep node (issued net)) by (simpl; lia).
    unfold known_tokens at 1. simpl.
    destruct (decide (A = node)) as [->|Hne].
    - rewrite lookup_insert_eq. simpl. split; [done|]. intros _.
      apply elem_of_union. left. by apply elem_of_singleton.
    - rewrite lookup_insert_ne by done. split; [|done].
      intros Hin. apply (known_tokens_issued net Hr node) in Hin. lia. }
  unfold Authorize. simpl in *.
  rewrite bool_decide_eq_false_2 by lia.
  rewrite (bool_decide_eq_false_2 (op ∉ ops)) by (intros Hn; by apply Hn).
  split.
  - rewrite bool_decide_eq_false_2; [done|].
    intros Hn. by apply Hn, Hrecord.
  - intros B HB. rewrite bool_decide_eq_true_2; [done|].
    intros Hin. by apply Hrecord in Hin.
Qed.

(** C1.  A session token is created against the node A and presented, then
    or in any later state of the network, with a PUT or a DELETE that it
    authorizes, inside its validity window.  Then A allows the operation and
    every other node denies it with SessionNotFound, wherever the containers
    are placed: whether A, or the other node, is in the placement set has no
    part. *)
Theorem C1_valid_token_opens_its_node_only
    net owner A from until ops net' op object time :
  reachable net →
  op = PUT ∨ op = DELETE →
  let session := CreateSessionToken net owner A from until ops in
  later session.2 net' →
  op ∈ ops → in_window session.1 time →
  Authorize net' session.1 A op object time = Allow
  ∧ ∀ B, B ≠ A →
      Authorize net' session.1 B op object time = Deny SessionNotFound.
Proof. intros Hr _. by apply authorize_created_token. Qed.

(** A block that a node denies with SessionNotFound is what
    [pytest.raises(Exception, match=SESSION_NOT_FOUND)] waits for. *)
Lemma pytest_raises_denied {R} (block : M Network R) net :
  block net
  = (Raise (MkExc ExceptionC (denial_text SessionNotFound)), net) →
  pytest_raises (keywords := guarded_keywords)
    (SESSION_NOT_FOUND (SessionKeywords := guarded_keywords)) block net
  = (Ok tt, net).
Proof. intros E. unfold pytest_raises. rewrite E. reflexivity. Qed.

(** The steps of the test pass on nodes that run the guard, in any state
    of the network later than the creation of the token: the token is
    created against the first node, the other two are any other nodes. *)
Lemma session_token_steps_pass net owner A B C from until ops net'
    wallet file_path cid oid oid_delete shell :
  reachable net → B ≠ A → C ≠ A →
  PUT ∈ ops → DELETE ∈ ops →
  let session := CreateSessionToken net owner A from until ops in
  later session.2 net' →
  in_window session.1 (now net') →
  session_token_steps (keywords := guarded_keywords)
    wallet file_path cid oid oid_delete shell session.1 A B C net'
  = (Ok tt, net').
Proof.
  intros Hr HB HC Hput Hdel session Hlater Hwin.
  assert (Hreq : ∀ op cid' oid' answer, op ∈ ops →
            request op cid' oid' A (Some session.1) answer net'
            = (Ok answer, net')
            ∧ ∀ node, node ≠ A →
                request op cid' oid' node (Some session.1) answer net'
                = (Raise (MkExc ExceptionC (denial_text SessionNotFound)),
                   net')).
  { intros op cid' oid' answer Hop.
    destruct (authorize_created_token net owner A from until ops net'
                op (MkObjectAddress cid' oid') (now net')
                Hr Hlater Hop Hwin) as [HA Hother].
    assert (EA : Authorize net' session.1 A op
                   (MkObjectAddress cid' oid') (now net') = Allow)
      by exact HA.
    unfold request. split; [by rewrite EA|].
    intros node Hnode.
    assert (EB : Authorize net' session.1 node op
                   (MkObjectAddress cid' oid') (now net')
                 = Deny SessionNotFound) by exact (Hother node Hnode).
    by rewrite EB. }
  destruct (Hreq PUT cid "new object id" "new object id" Hput)
    as [Hput_A Hput_other].
  destruct (Hreq DELETE cid oid_delete "tombstone id" Hdel) as [Hdel_A _].
  destruct (Hreq DELETE cid oid "tombstone id" Hdel) as [_ Hdel_other].
  unfold session_token_steps, bind.
  assert (E1 : put_object (SessionKeywords := guarded_keywords)
                 wallet file_path cid shell A (Some session.1) net'
               = (Ok "new object id", net')) by exact Hput_A.
  assert (E2 : delete_object (SessionKeywords := guarded_keywords)
                 wallet cid oid_delete shell A (Some session.1) net'
               = (Ok "tombstone id", net')) by exact Hdel_A.
  assert (E3 : ∀ node, node ≠ A →
            pytest_raises (keywords := guarded_keywords) SESSION_NOT_FOUND
              (put_object (SessionKeywords := guarded_keywords)
                 wallet file_path cid shell node (Some session.1))
              net'
            = (Ok tt, net')).
  { intros node Hnode.
    exact (pytest_raises_denied _ _ (Hput_other node Hnode)). }
  assert (E4 : ∀ node, node ≠ A →
            pytest_raises (keywords := guarded_keywords) SESSION_NOT_FOUND
              (delete_object (SessionKeywords := guarded_keywords)
                 wallet cid oid shell node (Some session.1))
              net'
            = (Ok tt, net')).
  { intros node Hnode.
    exact (pytest_raises_denied _ _ (Hdel_other node Hnode)). }
  rewrite E1. cbv beta iota. rewrite E2. cbv beta iota.
  rewrite (E3 B HB). cbv beta iota. rewrite (E4 B HB). cbv beta iota.
  rewrite (E3 C HC). cbv beta iota. rewrite (E4 C HC). reflexivity.
Qed.

End Guard.

Lemma C1_on_the_session :
  let object := Session.MkObjectAddress the_cid the_oid in
  Session.Authorize the_session.2 the_session.1 s01 Session.DELETE object 200
  = Session.Allow
  ∧ ∀ B, B ≠ s01 →
      Session.Authorize the_session.2 the_session.1 B Session.DELETE object 200
      = Session.Deny Session.SessionNotFound.
Proof.
  refine (C1_valid_token_opens_its_node_only first_network
            "NbUgTSFvPmsRxmGeWpuuGeJUoRoi6PErcM" s01 100 3700
            [Session.PUT; Session.DELETE] the_session.2 Session.DELETE
            (Session.MkObjectAddress the_cid the_oid) 200
            (Session.reachable_start ∅ 100) (or_intror eq_refl)
            (later_now _) _ _).
  - apply elem_of_cons. right. apply elem_of_cons. by left.
  - unfold Session.in_window. simpl. lia.
Defined.

(** * Further properties of the scans *)

(** Two tests that agree on the elements of a list keep the same ones. *)
Lemma filter_agree {A} (P Q : A → Prop)
    `{!∀ x, Decision (P x)} `{!∀ x, Decision (Q x)} (l : list A) :
  (∀ x, x ∈ l → P x ↔ Q x) → filter P l = filter Q l.
Proof.
  induction l as [|x l IH]; intros Hagree; [done|].
  rewrite !filter_cons, IH.
  - destruct (decide (P x)) as [HP|HP], (decide (Q x)) as [HQ|HQ];
      try done; exfalso; apply (Hagree x) in HP || apply HP, (Hagree x);
      try done; apply elem_of_cons; by left.
  - intros y Hy. apply Hagree, elem_of_cons. by right.
Qed.

Lemma first_raised_app stop l1 l2 :
  first_raised stop (l1 ++ l2)
  = match first_raised stop l1 with
    | Some err => Some err
    | None => first_raised stop l2
    end.
Proof.
  induction l1 as [|n l1 IH]; [done|].
  rewrite <- app_comm_cons, !first_raised_cons. by destruct (stop n).
Qed.

Section MoreScanFacts.

Context `{net : Collaborators}.
Variables (wallet cid oid : string) (shell : Shell).

(** X1.  Whatever the complexity tag, a count that [get_object_copies]
    returns is at most the number of entries of NEOFS_NETMAP. *)
Theorem copies_at_most_the_map_size complexity w copies :
  value_of (get_object_copies complexity wallet cid oid shell w) = Ok copies →
  (copies ≤ length NEOFS_NETMAP)%nat.
Proof.
  unfold get_object_copies. destruct (String.eqb complexity "Simple").
  - rewrite simple_value. destruct (first_raised _ _); [done|].
    intros [= <-]. apply length_filter.
  - unfold get_complex_object_copies, bind.
    destruct (get_last_object wallet cid oid shell w) as [[last|err] w'];
      [|done].
    destruct (truthy_str last); [|done].
    rewrite simple_value. destruct (first_raised _ _); [done|].
    intros [= <-]. apply length_filter.
Qed.


(** X3.  The scans of a map that is two maps joined are the scans of the
    two maps one after the other: an error that the scan of the first map
    raises, or else one that the scan of the second raises, is what the scan
    raises; with none, the counts add up and the lists follow one another.
    An endpoint that stands twice in the map is asked twice and counted
    twice. *)
Theorem scans_of_joined_maps l1 l2 w :
  value_of (get_simple_object_copies (net := with_netmap net (l1 ++ l2))
              wallet cid oid shell w)
  = match value_of (get_simple_object_copies (net := with_netmap net l1)
                      wallet cid oid shell w) with
    | Raise err => Raise err
    | Ok n1 =>
        match value_of (get_simple_object_copies (net := with_netmap net l2)
                          wallet cid oid shell w) with
        | Raise err => Raise err
        | Ok n2 => Ok (n1 + n2)
        end
    end
  ∧ value_of (get_nodes_with_object (net := with_netmap net (l1 ++ l2))
                wallet cid oid shell None w)
    = match value_of (get_nodes_with_object (net := with_netmap net l1)
                        wallet cid oid shell None w) with
      | Raise err => Raise err
      | Ok holders1 =>
          match value_of (get_nodes_with_object (net := with_netmap net l2)
                            wallet cid oid shell None w) with
          | Raise err => Raise err
          | Ok holders2 => Ok (holders1 ++ holders2)
          end
      end
  ∧ value_of (get_nodes_without_object (net := with_netmap net (l1 ++ l2))
                wallet cid oid shell w)
    = match value_of (get_nodes_without_object (net := with_netmap net l1)
                        wallet cid oid shell w) with
      | Raise err => Raise err
      | Ok lacking1 =>
          match value_of (get_nodes_without_object
                            (net := with_netmap net l2)
                            wallet cid oid shell w) with
          | Raise err => Raise err
          | Ok lacking2 => Ok (lacking1 ++ lacking2)
          end
      end.
Proof.
  rewrite !(simple_value (net := with_netmap net _)),
          !(with_value (net := with_netmap net _)),
          !(without_value (net := with_netmap net _)).
  simpl.
  change (escaping (net := with_netmap net _) wallet cid oid shell)
    with (escaping wallet cid oid shell).
  change (aborting (net := with_netmap net _) wallet cid oid shell)
    with (aborting wallet cid oid shell).
  rewrite !first_raised_app.
  split; [|split].
  - destruct (first_raised _ l1); [done|].
    destruct (first_raised _ l2); [done|].
    by rewrite filter_app, length_app.
  - destruct (first_raised _ l1); [done|].
    destruct (first_raised _ l2); [done|].
    by rewrite filter_app.
  - destruct (first_raised _ l1); [done|].
    destruct (first_raised _ l2); [done|].
    by rewrite filter_app.
Qed.

(** A scan that goes through a list goes through its sublists. *)
Lemma first_raised_filter stop (P : string → Prop)
    `{!∀ x, Decision (P x)} l :
  first_raised stop l = None → first_raised stop (filter P l) = None.
Proof.
  rewrite !first_raised_None. intros Hall node Hin.
  apply list_elem_of_filter in Hin as [_ Hin]. by apply Hall.
Qed.

(** X4.  When the scan of every node returns, skipping nodes and scanning
    the rest gives the list that it returned with the skipped nodes
    dropped. *)
Theorem skipping_commutes_with_scanning skip_nodes w1 w2 holders :
  value_of (get_nodes_with_object wallet cid oid shell None w1) = Ok holders →
  value_of (get_nodes_with_object wallet cid oid shell skip_nodes w2)
  = Ok (filter (λ node, node ∉ default [] skip_nodes) holders).
Proof.
  rewrite (with_value _ _ _ _ None), (with_value _ _ _ _ skip_nodes),
    (nodes_to_search_filter skip_nodes).
  change (nodes_to_search None) with NEOFS_NETMAP.
  destruct (first_raised (escaping wallet cid oid shell) NEOFS_NETMAP)
    eqn:Hgo; [done|].
  intros [= <-].
  rewrite (first_raised_filter _ _ _ Hgo). f_equal.
  rewrite !list_filter_filter. apply list_filter_iff. intros node. tauto.
Qed.

(** X5.  Once the holders are known, a scan that skips them finds no node:
    [get_nodes_with_object] with the list it returned as [skip_nodes]
    returns the empty list, also when that list was empty and nothing is
    skipped. *)
Theorem skipping_the_holders_finds_none w1 w2 holders :
  value_of (get_nodes_with_object wallet cid oid shell None w1) = Ok holders →
  value_of (get_nodes_with_object wallet cid oid shell (Some holders) w2)
  = Ok [].
Proof.
  rewrite (with_value _ _ _ _ None).
  change (nodes_to_search None) with NEOFS_NETMAP.
  destruct (first_raised (escaping wallet cid oid shell) NEOFS_NETMAP)
    eqn:Hgo; [done|].
  intros [= <-].
  rewrite with_value, nodes_to_search_filter.
  rewrite (first_raised_filter _ _ _ Hgo). simpl. f_equal.
  apply elem_of_nil_inv. intros node Hin.
  apply list_elem_of_filter in Hin as [Hfound Hin].
  apply list_elem_of_filter in Hin as [Hnot Hin].
  apply Hnot, list_elem_of_filter. done.
Qed.

(** X6.  When no endpoint stands twice in NEOFS_NETMAP, none stands twice
    in a list that [get_nodes_with_object] or [get_nodes_without_object]
    returns. *)
Theorem scans_list_no_node_twice skip_nodes w :
  NoDup NEOFS_NETMAP →
  (∀ holders,
     value_of (get_nodes_with_object wallet cid oid shell skip_nodes w)
     = Ok holders →
     NoDup holders)
  ∧ ∀ nodes_without,
      value_of (get_nodes_without_object wallet cid oid shell w)
      = Ok nodes_without →
      NoDup nodes_without.
Proof.
  intros Hnodup. split.
  - intros holders. rewrite with_value, nodes_to_search_filter.
    destruct (first_raised _ _); [done|].
    intros [= <-]. by do 2 apply NoDup_filter.
  - intros nodes_without. rewrite without_value.
    destruct (first_raised _ _); [done|].
    intros [= <-]. by apply NoDup_filter.
Qed.

(** X15.  An error that is no Exception ends every scan at the node whose
    request raises it: the scan raises that very error, the nodes after it
    get no request, and the logger gets no line for the node. *)
Theorem error_that_is_no_exception_ends_every_scan l1 node l2 err w :
  NEOFS_NETMAP = l1 ++ node :: l2 →
  (∀ n, n ∈ l1 → escaping wallet cid oid shell n = None) →
  outcome wallet cid oid shell node = Raise err →
  caught err = false →
  get_simple_object_copies wallet cid oid shell w
  = (Raise err,
     MkWorld (probes w ++ (probe wallet cid oid shell <$> l1 ++ [node]))
       (log w ++ omap (simple_log_line wallet cid oid shell) l1))
  ∧ get_nodes_with_object wallet cid oid shell None w
    = (Raise err,
       MkWorld (probes w ++ (probe wallet cid oid shell <$> l1 ++ [node]))
         (log w ++ omap (with_log_line wallet cid oid shell) l1))
  ∧ ((∀ n, n ∈ l1 → aborting wallet cid oid shell n = None) →
     get_nodes_without_object wallet cid oid shell w
     = (Raise err,
        MkWorld (probes w ++ (probe wallet cid oid shell <$> l1 ++ [node]))
          (log w))).
Proof.
  intros Hmap Hl1 Hnode Hcaught.
  assert (He : escaping wallet cid oid shell node = Some err).
  { unfold escaping. by rewrite Hnode, Hcaught. }
  assert (Ha : aborting wallet cid oid shell node = Some err).
  { unfold aborting. by rewrite Hnode, Hcaught. }
  assert (Hs : simple_log_line wallet cid oid shell node = None).
  { unfold simple_log_line. by rewrite Hnode, Hcaught. }
  assert (Hw : with_log_line wallet cid oid shell node = None).
  { unfold with_log_line. by rewrite Hnode, Hcaught. }
  assert (Hline : ∀ line : string → option string,
            line node = None → omap line (l1 ++ [node]) = omap line l1).
  { intros line Hnone. rewrite omap_app. simpl. rewrite Hnone.
    by rewrite app_nil_r. }
  rewrite simple_run, with_run, without_run. simpl. rewrite Hmap.
  destruct (reached_split _ l1 node l2 err Hl1 He) as [-> ->].
  rewrite (Hline _ Hs), (Hline _ Hw).
  split; [done|]. split; [done|]. intros Hclean.
  by destruct (reached_split _ l1 node l2 err Hclean Ha) as [-> ->].
Qed.

End MoreScanFacts.

(** X7.  [get_simple_object_copies] and [get_nodes_with_object] cannot tell
    a node whose request fails with an Exception from a node that answers
    [None]: on two networks with the same map whose nodes answer alike, but
    for nodes that answer [None] on one and fail, with whatever Exception,
    on the other, they return, or raise, the same. *)
Theorem failing_node_reads_as_node_without_copy
    (net1 net2 : Collaborators) wallet cid oid shell skip_nodes w1 w2 :
  @NEOFS_NETMAP net1 = @NEOFS_NETMAP net2 →
  (∀ node, node ∈ @NEOFS_NETMAP net1 →
     outcome (net := net1) wallet cid oid shell node
     = outcome (net := net2) wallet cid oid shell node
     ∨ (quiet (outcome (net := net1) wallet cid oid shell node)
        ∧ quiet (outcome (net := net2) wallet cid oid shell node))) →
  value_of (get_simple_object_copies (net := net1) wallet cid oid shell w1)
  = value_of (get_simple_object_copies (net := net2) wallet cid oid shell w2)
  ∧ value_of (get_nodes_with_object (net := net1)
                wallet cid oid shell skip_nodes w1)
    = value_of (get_nodes_with_object (net := net2)
                  wallet cid oid shell skip_nodes w2).
Proof.
  intros Hmap Halike.
  assert (Hsame : ∀ node, node ∈ @NEOFS_NETMAP net1 →
            counted (net := net1) wallet cid oid shell node
            = counted (net := net2) wallet cid oid shell node
            ∧ found (net := net1) wallet cid oid shell node
              = found (net := net2) wallet cid oid shell node
            ∧ escaping (net := net1) wallet cid oid shell node
              = escaping (net := net2) wallet cid oid shell node).
  { intros node Hin. unfold counted, found, escaping.
    destruct (Halike node Hin)
      as [->|[[->|(e1 & -> & ->)] [->|(e2 & -> & ->)]]]; done. }
  rewrite !simple_value, !with_value, !nodes_to_search_filter, <- Hmap.
  destruct (stops_agree (escaping (net := net1) wallet cid oid shell)
              (escaping (net := net2) wallet cid oid shell)
              (@NEOFS_NETMAP net1)) as [-> _].
  { intros node Hin. by destruct (Hsame node Hin) as (_ & _ & ->). }
  destruct (stops_agree (escaping (net := net1) wallet cid oid shell)
              (escaping (net := net2) wallet cid oid shell)
              (filter (λ node, node ∉ default [] skip_nodes)
                 (@NEOFS_NETMAP net1))) as [-> _].
  { intros node Hin. apply list_elem_of_filter in Hin as [_ Hin].
    by destruct (Hsame node Hin) as (_ & _ & ->). }
  split.
  - destruct (first_raised _ _); [done|].
    do 2 f_equal. apply filter_agree. intros node Hin.
    by destruct (Hsame node Hin) as [-> _].
  - destruct (first_raised _ (filter _ _)); [done|].
    f_equal. apply filter_agree. intros node Hin.
    apply list_elem_of_filter in Hin as [_ Hin].
    by destruct (Hsame node Hin) as (_ & -> & _).
Qed.

Lemma copies_at_most_the_map_size_on_healthy_network :
  (1 ≤ length (@NEOFS_NETMAP healthy_network))%nat.
Proof.
  apply (copies_at_most_the_map_size (net := healthy_network)
           the_wallet the_cid the_oid CliShell "Complex" empty_world 1).
  vm_compute. reflexivity.
Defined.


Lemma skipping_commutes_with_scanning_on_healthy_network :
  value_of (get_nodes_with_object (net := healthy_network)
              the_wallet the_cid the_oid CliShell (Some [s01; s03])
              empty_world)
  = Ok (filter (λ node, node ∉ [s01; s03]) [s01]).
Proof.
  apply (skipping_commutes_with_scanning (net := healthy_network)
           the_wallet the_cid the_oid CliShell (Some [s01; s03])
           empty_world empty_world [s01]).
  vm_compute. reflexivity.
Defined.

Lemma skipping_the_holders_finds_none_on_healthy_network :
  value_of (get_nodes_with_object (net := healthy_network)
              the_wallet the_cid the_oid CliShell (Some [s01]) empty_world)
  = Ok [].
Proof.
  apply (skipping_the_holders_finds_none (net := healthy_network)
           the_wallet the_cid the_oid CliShell empty_world empty_world [s01]).
  vm_compute. reflexivity.
Defined.

Lemma scans_list_no_node_twice_on_healthy_network :
  (∀ holders,
     value_of (get_nodes_with_object (net := healthy_network)
                 the_wallet the_cid the_oid CliShell (Some [s02]) empty_world)
     = Ok holders →
     NoDup holders)
  ∧ ∀ nodes_without,
      value_of (get_nodes_without_object (net := healthy_network)
                  the_wallet the_cid the_oid CliShell empty_world)
      = Ok nodes_without →
      NoDup nodes_without.
Proof.
  apply (scans_list_no_node_twice (net := healthy_network)).
  compute_done.
Defined.

Lemma error_that_is_no_exception_ends_every_scan_on_interrupted_network :
  let asked := probe the_wallet the_cid the_oid CliShell <$> [s01] ++ [s02] in
  let interrupted := MkExc FailedC "interrupted" in
  get_simple_object_copies (net := interrupted_network)
    the_wallet the_cid the_oid CliShell empty_world
  = (Raise interrupted,
     MkWorld ([] ++ asked)
       ([] ++ omap (simple_log_line (net := interrupted_network)
                      the_wallet the_cid the_oid CliShell) [s01]))
  ∧ get_nodes_with_object (net := interrupted_network)
      the_wallet the_cid the_oid CliShell None empty_world
    = (Raise interrupted,
       MkWorld ([] ++ asked)
         ([] ++ omap (with_log_line (net := interrupted_network)
                        the_wallet the_cid the_oid CliShell) [s01]))
  ∧ ((∀ n, n ∈ [s01] →
        aborting (net := interrupted_network)
          the_wallet the_cid the_oid CliShell n = None) →
     get_nodes_without_object (net := interrupted_network)
       the_wallet the_cid the_oid CliShell empty_world
     = (Raise interrupted, MkWorld ([] ++ asked) [])).
Proof.
  apply (error_that_is_no_exception_ends_every_scan
           (net := interrupted_network)
           the_wallet the_cid the_oid CliShell [s01] s02 [s03; s04]
           (MkExc FailedC "interrupted") empty_world).
  - reflexivity.
  - intros n ->%list_elem_of_singleton. vm_compute. reflexivity.
  - vm_compute. reflexivity.
  - reflexivity.
Defined.

Lemma failing_node_reads_as_node_without_copy_on_the_networks :
  value_of (get_simple_object_copies (net := healthy_network)
              the_wallet the_cid the_oid CliShell empty_world)
  = value_of (get_simple_object_copies (net := flaky_network)
                the_wallet the_cid the_oid CliShell empty_world)
  ∧ value_of (get_nodes_with_object (net := healthy_network)
                the_wallet the_cid the_oid CliShell None empty_world)
    = value_of (get_nodes_with_object (net := flaky_network)
                  the_wallet the_cid the_oid CliShell None empty_world).
Proof.
  apply (failing_node_reads_as_node_without_copy
           healthy_network flaky_network); [reflexivity|].
  intros node Hin.
  apply elem_of_cons in Hin as [->|Hin]; [by left|].
  apply elem_of_cons in Hin as [->|Hin].
  { right. split; [by left|right]. exists timeout_error.
    split; reflexivity. }
  apply elem_of_cons in Hin as [->|Hin]; [by left|].
  apply elem_of_cons in Hin as [->|Hin]; [by left|].
  by apply elem_of_nil in Hin.
Defined.

Section ScanEffects.

Context `{net : Collaborators}.
Variables (wallet cid oid : string) (shell : Shell).

(** X8.  What the scans log.  [get_simple_object_copies] and
    [get_nodes_with_object] write, in the order of the map and for the
    nodes up to the one that ends the scan, one line for a node that is
    counted or listed and one line, the same for every Exception, for a node
    whose request raises an Exception; a node that answers [None], or raises
    an error that is no Exception, leaves no line.
    [get_nodes_without_object] writes no line, whether it returns or
    raises. *)
Theorem what_the_scans_log skip_nodes w :
  log (snd (get_simple_object_copies wallet cid oid shell w))
  = log w ++ omap (simple_log_line wallet cid oid shell)
               (reached (escaping wallet cid oid shell) NEOFS_NETMAP)
  ∧ log (snd (get_nodes_with_object wallet cid oid shell skip_nodes w))
    = log w ++ omap (with_log_line wallet cid oid shell)
                 (reached (escaping wallet cid oid shell)
                    (nodes_to_search skip_nodes))
  ∧ log (snd (get_nodes_without_object wallet cid oid shell w)) = log w
  ∧ ∀ node,
      simple_log_line wallet cid oid shell node
      = match outcome wallet cid oid shell node with
        | Ok response =>
            if truthy response
            then Some ("Found object " +:+ oid +:+ " on node " +:+ node)
            else None
        | Raise err =>
            if caught err
            then Some ("No " +:+ oid +:+ " object copy found on " +:+ node
                       +:+ ", continue")
            else None
        end
      ∧ with_log_line wallet cid oid shell node
        = match outcome wallet cid oid shell node with
          | Ok res =>
              if is_none res then None
              else Some ("Found object " +:+ oid +:+ " on node " +:+ node)
          | Raise err =>
              if caught err
              then Some ("No " +:+ oid +:+ " object copy found on " +:+ node
                         +:+ ", continue")
              else None
          end.
Proof.
  rewrite simple_run, with_run, without_run. done.
Qed.

(** X9.  The requests of [get_complex_object_copies].  After the last part
    is looked up, the scan asks the nodes of the map for the last part, in
    the order of the map and up to a node whose request raises an error that
    is no Exception, and no node for the object itself; when no last part is
    found, or the lookup raises, the function sends no request of its own. *)
Theorem complex_scan_asks_for_the_last_part w last w' :
  get_last_object wallet cid oid shell w = (last, w') →
  probes_of (get_complex_object_copies wallet cid oid shell w)
  = probes w'
    ++ match last with
       | Ok (Some last_oid) =>
           if String.eqb last_oid EmptyString then []
           else probe wallet cid last_oid shell
                  <$> reached (escaping wallet cid last_oid shell)
                        NEOFS_NETMAP
       | Ok None | Raise _ => []
       end.
Proof.
  intros Hlast. unfold get_complex_object_copies, bind, probes_of.
  rewrite Hlast.
  destruct last as [[last_oid|]|err]; simpl; rewrite ?app_nil_r; try done.
  destruct (String.eqb last_oid EmptyString); simpl;
    rewrite ?app_nil_r; [done|].
  apply simple_probes.
Qed.

(** X10.  Entries of [skip_nodes] that are no nodes of the map change
    nothing: with such a list, the empty one among them,
    [get_nodes_with_object] runs as it does with no list. *)
Theorem unknown_skip_nodes_change_nothing skip w :
  (∀ node, node ∈ skip → node ∉ NEOFS_NETMAP) →
  get_nodes_with_object wallet cid oid shell (Some skip) w
  = get_nodes_with_object wallet cid oid shell None w.
Proof.
  intros Hstale. unfold get_nodes_with_object.
  rewrite !nodes_to_search_filter. simpl. f_equal.
  apply filter_agree. intros node Hin. split; intros Hn.
  - by intros Hnil%elem_of_nil.
  - intros Hskip. by apply (Hstale node).
Qed.

End ScanEffects.

Lemma complex_scan_asks_for_the_last_part_on_healthy_network :
  probes_of (get_complex_object_copies (net := healthy_network)
               the_wallet the_cid the_oid CliShell empty_world)
  = probe the_wallet the_cid "6Z7mFkGTc7EKoXcRwm5fTAoCyZ9WHHJCkqLZ3WFVyGCt"
      CliShell <$> [s01; s02; s03; s04].
Proof.
  exact (complex_scan_asks_for_the_last_part (net := healthy_network)
           the_wallet the_cid the_oid CliShell empty_world _ empty_world
           eq_refl).
Defined.

Lemma unknown_skip_nodes_change_nothing_on_healthy_network :
  get_nodes_with_object (net := healthy_network)
    the_wallet the_cid the_oid CliShell
    (Some ["s09.neofs.devenv:8080"]) empty_world
  = get_nodes_with_object (net := healthy_network)
      the_wallet the_cid the_oid CliShell None empty_world.
Proof.
  apply (unknown_skip_nodes_change_nothing (net := healthy_network)).
  intros node ->%list_elem_of_singleton.
  compute_done.
Defined.

(** * Further properties of the session-token test *)

Lemma split_from_blank_nil s :
  blank s = true → split_from EmptyString s = [].
Proof.
  unfold blank. induction s as [|c s IH]; simpl; [done|].
  intros [Hc Hs]%andb_prop. rewrite Hc. simpl. auto.
Qed.

Lemma split_from_nil_blank s :
  split_from EmptyString s = [] → blank s = true.
Proof.
  unfold blank. induction s as [|c s IH]; simpl; [done|].
  destruct (isspace c) eqn:Hc; simpl; [done|].
  destruct (split_from_reading s (String c EmptyString))
    as (chars & rest & _ & _ & _ & E); [done|].
  rewrite append_empty_l, E. done.
Qed.

Lemma blank_token_ends s : blank s = true → token_ends s = true.
Proof. destruct s as [|c s]; [done|]. by intros [Hc _]%andb_prop. Qed.

(** X11.  Where the group name fails.  [locode] raises an IndexError, and
    the test ends without a container, exactly for a locode other than
    RU LED that has fewer than two tokens: separators only, the empty string
    among them, or one token with separators around it. *)
Theorem locode_fails_without_second_token un_locode :
  locode un_locode = Raise (MkExc IndexErrorC "list index out of range")
  ↔ un_locode ≠ "RU LED"
    ∧ (blank un_locode = true
       ∨ ∃ lead word tail,
           un_locode = lead +:+ word +:+ tail
           ∧ blank lead = true ∧ token word = true ∧ blank tail = true).
Proof.
  unfold locode, split. split.
  - destruct (String.eqb un_locode "RU LED") eqn:Hru; [done|].
    apply String.eqb_neq in Hru. intros Hfail. split; [done|].
    destruct (split_from_between un_locode)
      as [Hnil|(lead & first & rest & -> & Hlead & Hfirst & Hrest & E)].
    + left. by apply split_from_nil_blank.
    + right. exists lead, first, rest. repeat split; try done.
      rewrite E in Hfail. simpl in Hfail.
      destruct rest as [|c rest]; [done|]. unfold blank. simpl in *.
      rewrite Hrest. simpl. apply split_from_nil_blank.
      by destruct (split_from EmptyString rest).
  - intros [Hru%String.eqb_neq Hfew]. rewrite Hru.
    destruct Hfew as [Hblank|(lead & word & tail & -> & Hlead & Hword & Htail)].
    + by rewrite split_from_blank_nil.
    + rewrite split_from_blank by done.
      rewrite split_from_token by auto using blank_token_ends.
      destruct tail as [|c tail]; [done|].
      apply andb_prop in Htail as [_ Htail].
      by rewrite split_from_blank_nil.
Qed.

Lemma all_chars_append p s1 s2 :
  all_chars p (s1 +:+ s2) = all_chars p s1 && all_chars p s2.
Proof.
  induction s1 as [|c s1 IH]; [done|].
  rewrite append_cons. simpl. by rewrite IH, andb_assoc.
Qed.

(** A token stays one with characters put before and after it. *)
Lemma token_wrapped before word after :
  all_chars (λ c, negb (isspace c)) before = true →
  all_chars (λ c, negb (isspace c)) after = true →
  token word = true →
  token (before +:+ word +:+ after) = true.
Proof.
  unfold token. intros Hb Ha [Hne Hw]%andb_prop.
  rewrite !all_chars_append, Hb, Hw, Ha. simpl. rewrite andb_true_r.
  apply negb_true_iff, String.eqb_neq.
  apply negb_true_iff, String.eqb_neq in Hne.
  destruct before; [|done]. rewrite append_empty_l. by destruct word.
Qed.

(** A token and a space: the token is given out, the rest is split. *)
Lemma split_word_then_space word s :
  token word = true → split (word +:+ " " +:+ s) = word :: split s.
Proof. intros Hword. unfold split. by rewrite split_from_token. Qed.

(** The group name that [locode] finds is a token. *)
Lemma locode_token un_locode group :
  locode un_locode = Ok group → token group = true.
Proof.
  unfold locode, split.
  destruct (String.eqb un_locode "RU LED"); [by intros [= <-]|].
  destruct (split_from_between un_locode)
    as [->|(lead & first & rest & -> & _ & _ & _ & ->)]; [done|].
  simpl.
  destruct (split_from_between (after_first rest))
    as [->|(gap & second & rest' & _ & _ & Hsecond & _ & ->)]; [done|].
  simpl. by intros [= <-].
Qed.

(** X12.  The rule can be read back word by word.  For a group name that
    [locode] finds, the text of [placement_policy] splits at its spaces into
    the words of the grammar, the group names each one word at its place, up
    to the value of the filter. *)
Theorem group_names_are_words_of_the_rule un_locode group :
  locode un_locode = Ok group →
  token group = true
  ∧ split (placement_policy group un_locode)
    = ["REP"; "1"; "IN"; "LOC_" +:+ group +:+ "_PLACE"; "CBF"; "1";
       "SELECT"; "1"; "FROM"; "LOC_" +:+ group; "AS";
       "LOC_" +:+ group +:+ "_PLACE"; "FILTER";
       dquote +:+ "UN-LOCODE" +:+ dquote; "EQ"]
      ++ split (dquote +:+ un_locode +:+ dquote +:+ " AS LOC_" +:+ group).
Proof.
  intros Hgroup%locode_token. split; [done|].
  assert (Hplace : token ("LOC_" +:+ group +:+ "_PLACE") = true)
    by (by apply token_wrapped).
  assert (Hloc : token ("LOC_" +:+ group) = true).
  { rewrite <- (append_empty_r group). by apply token_wrapped. }
  assert (Htext : placement_policy group un_locode
    = "REP" +:+ " " +:+ "1" +:+ " " +:+ "IN" +:+ " "
      +:+ ("LOC_" +:+ group +:+ "_PLACE") +:+ " " +:+ "CBF" +:+ " "
      +:+ "1" +:+ " " +:+ "SELECT" +:+ " " +:+ "1" +:+ " " +:+ "FROM" +:+ " "
      +:+ ("LOC_" +:+ group) +:+ " " +:+ "AS" +:+ " "
      +:+ ("LOC_" +:+ group +:+ "_PLACE") +:+ " " +:+ "FILTER" +:+ " "
      +:+ (dquote +:+ "UN-LOCODE" +:+ dquote) +:+ " " +:+ "EQ" +:+ " "
      +:+ (dquote +:+ un_locode +:+ dquote +:+ " AS LOC_" +:+ group)).
  { unfold placement_policy. repeat (rewrite !append_assoc; simpl). done. }
  rewrite Htext.
  repeat (rewrite split_word_then_space by (done || reflexivity)).
  done.
Qed.

Lemma locode_fails_on_one_token :
  locode "MOSCOW" = Raise (MkExc IndexErrorC "list index out of range").
Proof.
  apply locode_fails_without_second_token. split; [discriminate|].
  right. exists EmptyString, "MOSCOW", EmptyString. by repeat split.
Defined.

Lemma group_names_are_words_of_the_rule_for_FI_HEL :
  token "HEL" = true
  ∧ split (placement_policy "HEL" "FI HEL")
    = ["REP"; "1"; "IN"; "LOC_HEL_PLACE"; "CBF"; "1";
       "SELECT"; "1"; "FROM"; "LOC_HEL"; "AS";
       "LOC_HEL_PLACE"; "FILTER";
       dquote +:+ "UN-LOCODE" +:+ dquote; "EQ"]
      ++ split (dquote +:+ "FI HEL" +:+ dquote +:+ " AS LOC_HEL").
Proof.
  exact (group_names_are_words_of_the_rule "FI HEL" "HEL" eq_refl).
Defined.

Section CountedOrLacking.

Context `{net : Collaborators}.
Variables (wallet cid oid : string) (shell : Shell).

(** Two tests that no element passes together keep, in all, no more
    elements than the list has. *)
Lemma length_filter_apart {A} (P Q : A → Prop)
    `{!∀ x, Decision (P x)} `{!∀ x, Decision (Q x)} (l : list A) :
  (∀ x, P x → Q x → False) →
  (length (filter P l) + length (filter Q l) ≤ length l)%nat.
Proof.
  intros Hapart. induction l as [|x l IH]; [done|].
  rewrite !filter_cons.
  destruct (decide (P x)) as [HP|HP], (decide (Q x)) as [HQ|HQ]; simpl;
    [by destruct (Hapart x)|lia..].
Qed.

(** X14.  No node is both counted as a copy and listed as lacking the
    object: whenever [get_nodes_without_object] returns, the count of
    [get_simple_object_copies] and the length of its list are together at
    most the number of entries of NEOFS_NETMAP. *)
Theorem copies_and_lacking_nodes_fit_the_map w1 w2 nodes_without :
  value_of (get_nodes_without_object wallet cid oid shell w2)
  = Ok nodes_without →
  ∃ copies,
    value_of (get_simple_object_copies wallet cid oid shell w1) = Ok copies
    ∧ (copies + length nodes_without ≤ length NEOFS_NETMAP)%nat
    ∧ ∀ node, counted wallet cid oid shell node = true →
              node ∉ nodes_without.
Proof.
  rewrite without_value.
  destruct (first_raised _ _) eqn:Hclean; [done|]. intros [= <-].
  assert (Hapart : ∀ node, counted wallet cid oid shell node →
                           lacking wallet cid oid shell node → False).
  { intros node. unfold counted, lacking.
    destruct (outcome wallet cid oid shell node) as [[|items]|err]; done. }
  assert (Hgo : first_raised (escaping wallet cid oid shell) NEOFS_NETMAP
                = None).
  { apply first_raised_None. intros node Hin.
    apply aborting_None_escaping.
    by apply (proj1 (first_raised_None _ _) Hclean). }
  eexists. split; [by rewrite simple_value, Hgo|]. split.
  - by apply length_filter_apart.
  - intros node Hc [Hl _]%list_elem_of_filter.
    apply (Hapart node); [by rewrite Hc|done].
Qed.

End CountedOrLacking.

Lemma copies_and_lacking_nodes_fit_the_map_on_healthy_network :
  ∃ copies,
    value_of (get_simple_object_copies (net := healthy_network)
                the_wallet the_cid the_oid CliShell empty_world) = Ok copies
    ∧ (copies + length [s02; s03; s04]
       ≤ length (@NEOFS_NETMAP healthy_network))%nat
    ∧ ∀ node, counted (net := healthy_network)
                the_wallet the_cid the_oid CliShell node = true →
              node ∉ [s02; s03; s04].
Proof.
  apply (copies_and_lacking_nodes_fit_the_map (net := healthy_network)
           the_wallet the_cid the_oid CliShell empty_world empty_world).
  vm_compute. reflexivity.
Defined.
